(** * TeleScout: the match-and-forward pipeline

    A shallow embedding of the core of TeleScout
    ([src/keyword_matcher.py], [src/rate_limiter.py], [src/utils.py] and
    the message pipeline of [src/telegram_client.py]) together with the
    properties stated for it.

    Conventions of the embedding:
    - a Python [str] is a list of Unicode code points, so that [len]
      counts what Python counts (an emoji of the header is one element);
    - a Python [int] is a [Z]; clock readings ([time.time()],
      [datetime.now()]) are integers as well: the pipeline only compares
      and subtracts them;
    - a [dict] is a [gmap], the [set] of forwarded keys a [gset];
    - everything the code obtains from outside during one call of
      [_process_message] (clock readings, replies of the platform, the
      order in which [list(a_set)] enumerates) is gathered in a record
      [Env] that the call receives;
    - the effects of a call are returned as a list of [Event]s. *)

From Stdlib Require Import ZArith Ascii String DecimalString Lia.
From stdpp Require Import gmap list sorting.

Local Open Scope Z_scope.

(** ** Python strings *)

Definition codepoint := N.
Definition pystr := list codepoint.

(** An ASCII literal as a Python string. *)
Definition py (s : string) : pystr := N_of_ascii <$> list_ascii_of_string s.

(** [len(s)] *)
Definition len {A} (l : list A) : Z := Z.of_nat (length l).

(** [str(n)] for an [int]. *)
Definition str_of_int (n : Z) : pystr := py (NilZero.string_of_int (Z.to_int n)).

(** The newline character. *)
Definition nl : pystr := [10%N].

(** [sep.join(parts)] *)
Fixpoint join (sep : pystr) (parts : list pystr) : pystr :=
  match parts with
  | [] => []
  | [p] => p
  | p :: ps => p ++ sep ++ join sep ps
  end.

(** [s.endswith(suffix)] *)
Definition endswith (s suffix : pystr) : bool :=
  bool_decide (drop (length s - length suffix)%nat s = suffix).

(** [l[k:]] for a list and an [int], with Python's treatment of a
    negative start. *)
Definition slice_from {A} (k : Z) (l : list A) : list A :=
  drop (Z.to_nat (if k <? 0 then Z.max (len l + k) 0 else k)) l.

(** [l[:k]] *)
Definition slice_to {A} (k : Z) (l : list A) : list A :=
  take (Z.to_nat (if k <? 0 then Z.max (len l + k) 0 else k)) l.

(** What the code takes from the Unicode database of the runtime:
    [str.lower], the white space that [str.strip] removes, the word
    characters of [\w] under [re.UNICODE], and when a character of a
    pattern matches a character of the text under [re.IGNORECASE]. *)
Class Unicode := {
  str_lower : pystr -> pystr;
  is_space : codepoint -> bool;
  is_word : codepoint -> bool;
  ci_match : codepoint -> codepoint -> bool
}.

(** The tables restricted to ASCII, where they are small enough to be
    written out; they agree with Python on code points below 128. *)
Definition ascii_lower (c : codepoint) : codepoint :=
  if ((65 <=? c) && (c <=? 90))%N then (c + 32)%N else c.

Definition ascii_is_space (c : codepoint) : bool :=
  (((9 <=? c) && (c <=? 13)) || ((28 <=? c) && (c <=? 32)))%N.

Definition ascii_is_word (c : codepoint) : bool :=
  (((48 <=? c) && (c <=? 57)) || ((65 <=? c) && (c <=? 90))
   || ((97 <=? c) && (c <=? 122)) || (c =? 95))%N.

Definition ascii_unicode : Unicode := {|
  str_lower := fmap ascii_lower;
  is_space := ascii_is_space;
  is_word := ascii_is_word;
  ci_match := fun p c => (ascii_lower p =? ascii_lower c)%N
|}.

(** ** keyword_matcher.py *)

Section KeywordMatcher.
Context {U : Unicode}.

Fixpoint lstrip (s : pystr) : pystr :=
  match s with
  | c :: s' => if is_space c then lstrip s' else s
  | [] => []
  end.

(** [s.strip()] *)
Definition strip (s : pystr) : pystr := rev (lstrip (rev (lstrip s))).

(** A compiled pattern [\b<escaped keyword>\b] with
    [re.IGNORECASE | re.UNICODE]: after [re.escape] the keyword stands
    for itself, character by character. *)
Record Pattern := compile { literal : pystr }.

(** The character before position [i] of the text, if any. *)
Definition char_before (text : pystr) (i : nat) : option codepoint :=
  match i with O => None | S j => text !! j end.

Definition word_char (o : option codepoint) : bool :=
  match o with Some c => is_word c | None => false end.

(** [\b] at position [i]: exactly one side is a word character. *)
Definition boundary (text : pystr) (i : nat) : bool :=
  xorb (word_char (char_before text i)) (word_char (text !! i)).

Fixpoint literal_at (lit text : pystr) : bool :=
  match lit, text with
  | [], _ => true
  | p :: lit', c :: text' => ci_match p c && literal_at lit' text'
  | _ :: _, [] => false
  end.

Definition match_at (p : Pattern) (text : pystr) (i : nat) : bool :=
  boundary text i && literal_at (literal p) (drop i text)
  && boundary text (i + length (literal p)).

(** [pattern.search(text)] as a truth value. *)
Definition search (p : Pattern) (text : pystr) : bool :=
  existsb (match_at p text) (seq 0 (S (length text))).

Record KeywordMatcher := {
  keywords : list pystr;
  patterns : list (pystr * Pattern)
}.

(** [KeywordMatcher.__init__] *)
Definition KeywordMatcher_init (kws : list pystr) : KeywordMatcher :=
  let keywords := (fun kw => strip (str_lower kw)) <$> kws in
  {| keywords := keywords;
     patterns := (fun keyword => (keyword, compile keyword)) <$> keywords |}.

(** [KeywordMatcher.find_matches] *)
Definition find_matches (self : KeywordMatcher) (text : pystr) : list pystr :=
  match text with
  | [] => []
  | _ => fst <$> filter (fun kp => search kp.2 text = true) (patterns self)
  end.

(** [KeywordMatcher.has_match] *)
Definition has_match (self : KeywordMatcher) (text : pystr) : bool :=
  match text with
  | [] => false
  | _ => existsb (fun kp => search kp.2 text) (patterns self)
  end.

(** [KeywordMatcher.get_match_summary] *)
Definition get_match_summary (self : KeywordMatcher) (text : pystr) : option pystr :=
  let matches := find_matches self text in
  match matches with
  | [] => None
  | [m] => Some (py "Keyword matched: '" ++ m ++ py "'")
  | _ =>
      let keywords_list :=
        join (py ", ") ((fun m => py "'" ++ m ++ py "'") <$> slice_to 3 matches) in
      let extra_count :=
        if len matches >? 3
        then py " (+" ++ str_of_int (len matches - 3) ++ py " more)"
        else [] in
      Some (py "Keywords matched: " ++ keywords_list ++ extra_count)
  end.

End KeywordMatcher.

(** ** utils.py *)

(** The fields of a [datetime] that the code reads. *)
Record datetime := {
  year : Z; month : Z; day : Z; hour : Z; minute : Z; second : Z
}.

(** [%B] in the C locale. *)
Definition month_name (m : Z) : pystr :=
  py (match m with
      | 1 => "January" | 2 => "February" | 3 => "March" | 4 => "April"
      | 5 => "May" | 6 => "June" | 7 => "July" | 8 => "August"
      | 9 => "September" | 10 => "October" | 11 => "November"
      | _ => "December"
      end).

(** A number written with at least [w] digits, padded with zeros. *)
Definition zero_pad (w : nat) (n : Z) : pystr :=
  let d := str_of_int n in
  replicate (w - length d) 48%N ++ d.

(** One directive of [strftime]; the directives that
    [format_datetime] uses are interpreted, any other is left as it
    is. *)
Definition directive (c : codepoint) (dt : datetime) : pystr :=
  if (c =? 66)%N then month_name (month dt)                  (* %B *)
  else if (c =? 89)%N then zero_pad 4 (year dt)              (* %Y *)
  else if (c =? 73)%N then                                   (* %I *)
    zero_pad 2 (if hour dt mod 12 =? 0 then 12 else hour dt mod 12)
  else if (c =? 77)%N then zero_pad 2 (minute dt)            (* %M *)
  else if (c =? 112)%N then                                  (* %p *)
    (if hour dt <? 12 then py "AM" else py "PM")
  else [37%N; c].

(** [dt.strftime(fmt)] *)
Fixpoint strftime (fmt : pystr) (dt : datetime) : pystr :=
  match fmt with
  | 37%N :: c :: fmt' => directive c dt ++ strftime fmt' dt
  | c :: fmt' => c :: strftime fmt' dt
  | [] => []
  end.

(** The suffix chosen by [format_datetime]:
    [{1: 'st', 2: 'nd', 3: 'rd'}.get(day % 10, 'th')] unless
    [10 <= day <= 13]. *)
Definition ordinal_suffix (day : Z) : pystr :=
  if (10 <=? day) && (day <=? 13) then py "th"
  else match day mod 10 with
       | 1 => py "st" | 2 => py "nd" | 3 => py "rd" | _ => py "th"
       end.

(** [format_datetime] *)
Definition format_datetime (dt : datetime) : pystr :=
  let day := day dt in
  let suffix := ordinal_suffix day in
  strftime (str_of_int day ++ suffix ++ py " %B %Y %I:%M%p") dt.

(** ** rate_limiter.py *)

Record RateLimiter := {
  max_per_hour : Z;
  max_per_channel_per_hour : Z;
  global_messages : list Z;               (* deque, oldest first *)
  channel_messages : gmap Z (list Z)      (* defaultdict(deque) *)
}.

(** [RateLimiter.__init__] *)
Definition RateLimiter_init (max_per_hour max_per_channel_per_hour : Z) : RateLimiter :=
  {| max_per_hour := max_per_hour;
     max_per_channel_per_hour := max_per_channel_per_hour;
     global_messages := [];
     channel_messages := ∅ |}.

(** [RateLimiter._cleanup_old_messages]: pop from the left while the
    oldest entry is more than an hour old. *)
Fixpoint _cleanup_old_messages (message_queue : list Z) (current_time : Z) : list Z :=
  match message_queue with
  | t :: rest =>
      if t <? current_time - 3600
      then _cleanup_old_messages rest current_time
      else message_queue
  | [] => []
  end.

(** [channel_messages[channel_id]] of a [defaultdict(deque)]. *)
Definition channel_queue (self : RateLimiter) (channel_id : Z) : list Z :=
  default [] (channel_messages self !! channel_id).

(** [RateLimiter.can_send_message]; [current_time] is the reading of
    [time.time()]. The limiter is returned with its queues cleaned. *)
Definition can_send_message (self : RateLimiter) (current_time : Z)
    (channel_id : option Z) : RateLimiter * bool :=
  let global := _cleanup_old_messages (global_messages self) current_time in
  let self1 :=
    {| max_per_hour := max_per_hour self;
       max_per_channel_per_hour := max_per_channel_per_hour self;
       global_messages := global;
       channel_messages := channel_messages self |} in
  if len global >=? max_per_hour self then (self1, false)
  else
    match channel_id with
    | Some c =>
        let queue := _cleanup_old_messages (channel_queue self c) current_time in
        let self2 :=
          {| max_per_hour := max_per_hour self;
             max_per_channel_per_hour := max_per_channel_per_hour self;
             global_messages := global;
             channel_messages := <[c := queue]> (channel_messages self) |} in
        if len queue >=? max_per_channel_per_hour self then (self2, false)
        else (self2, true)
    | None => (self1, true)
    end.

(** [RateLimiter.record_message] *)
Definition record_message (self : RateLimiter) (current_time : Z)
    (channel_id : option Z) : RateLimiter :=
  {| max_per_hour := max_per_hour self;
     max_per_channel_per_hour := max_per_channel_per_hour self;
     global_messages := global_messages self ++ [current_time];
     channel_messages :=
       match channel_id with
       | Some c => <[c := channel_queue self c ++ [current_time]]> (channel_messages self)
       | None => channel_messages self
       end |}.

(** ** telegram_client.py *)

(** The peer of a message: only a [PeerChannel] has a [channel_id]. *)
Inductive Peer :=
  | PeerUser (user_id : Z)
  | PeerChat (chat_id : Z)
  | PeerChannel (channel_id : Z).

Record Message := {
  text : option pystr;
  peer_id : Peer;
  message_id : Z;
  date : datetime
}.

(** The key under which a forwarded message is remembered. *)
Definition ForwardKey : Type := option Z * Z.

Record Config := {
  config_keywords : list pystr;
  forward_delay : Z;
  max_messages_per_hour : Z;
  max_messages_per_channel_per_hour : Z;
  max_message_length : Z
}.

Record TeleScoutClient {U : Unicode} := {
  config : Config;
  keyword_matcher : KeywordMatcher;
  rate_limiter : RateLimiter;
  _last_forward_time : gmap (option Z) Z;
  _forwarded_messages : gset ForwardKey;
  _max_tracked_messages : Z;
  on_message_forwarded : bool     (* whether a callback is installed *)
}.

(** What the platform answers: a value or an exception. *)
Inductive Exn := FloodWaitError (seconds : Z) | OtherError.

Inductive Reply (A : Type) := Return (a : A) | Raise (e : Exn).
Arguments Return {A} a.
Arguments Raise {A} e.

(** A resolved entity; it may carry a [title]. *)
Record Entity := { title : option pystr }.

(** The surroundings of one call of [_process_message]. *)
Record Env := {
  now : Z;                          (* datetime.now(timezone.utc) *)
  time_check : Z;                   (* time.time() in can_send_message *)
  time_record : Z;                  (* time.time() in record_message *)
  get_entity_reply : Reply Entity;  (* client.get_entity(message.peer_id) *)
  send_reply : Reply unit;          (* client.send_message(target, text) *)
  listing : gset ForwardKey -> list ForwardKey   (* list(a_set) *)
}.

(** The order of [list(a_set)] is not fixed by the language: all that
    is known is that it enumerates the set. *)
Definition admissible (E : Env) : Prop :=
  forall s : gset ForwardKey, listing E s ≡ₚ elements s.

Inductive Event :=
  | EvForward (message : Message) (is_historical : bool)  (* _forward_message is entered *)
  | EvGetEntity (peer : Peer)
  | EvSend (full_message : pystr)
  | EvSleep (seconds : Z)
  | EvCallback.

Section Client.
Context {U : Unicode}.

(** [TeleScoutClient.__init__] *)
Definition TeleScoutClient_init (config : Config) : TeleScoutClient :=
  {| config := config;
     keyword_matcher := KeywordMatcher_init (config_keywords config);
     rate_limiter :=
       RateLimiter_init (max_messages_per_hour config)
                        (max_messages_per_channel_per_hour config);
     _last_forward_time := ∅;
     _forwarded_messages := ∅;
     _max_tracked_messages := 10000;
     on_message_forwarded := false |}.

(** The header composed by [_forward_message]. *)
Definition forward_header (channel_name : pystr) (match_summary : option pystr)
    (formatted_time : pystr) (is_historical : bool) : pystr :=
  [127919%N] ++ py " **TeleScout Match**" ++ nl
  ++ [128250%N] ++ py " **Channel:** " ++ channel_name ++ nl
  ++ [9200%N] ++ py " **Time:** " ++ formatted_time ++ nl
  ++ [128269%N] ++ py " **" ++ default (py "None") match_summary ++ py "**" ++ nl
  ++ (if is_historical then [128218%N] ++ py " **Historical message**" ++ nl else [])
  ++ replicate 50 61%N ++ nl ++ nl.

(** The text that follows the header: the truncation of
    [_forward_message]. *)
Definition forward_text (max_message_length : Z) (header message_text : pystr) : pystr :=
  if len message_text >? max_message_length then
    let truncated_length := max_message_length - len header - 100 in
    if truncated_length >? 0
    then slice_to truncated_length message_text
         ++ nl ++ nl ++ py "[Message truncated for security]"
    else py "[Message too long, content hidden for security]"
  else message_text.

(** [TeleScoutClient._forward_message] *)
Definition _forward_message (self : TeleScoutClient) (E : Env)
    (message : Message) (is_historical : bool) : list Event * Reply unit :=
  match get_entity_reply E with
  | Raise e => ([EvGetEntity (peer_id message)], Raise e)
  | Return channel =>
      let channel_name := default (py "Unknown Channel") (title channel) in
      match text message with
      | None => ([EvGetEntity (peer_id message)], Raise OtherError)
      | Some message_text =>
          let match_summary := get_match_summary (keyword_matcher self) message_text in
          let formatted_time := format_datetime (date message) in
          let header :=
            forward_header channel_name match_summary formatted_time is_historical in
          let message_text :=
            forward_text (max_message_length (config self)) header message_text in
          let full_message := header ++ message_text in
          ([EvGetEntity (peer_id message); EvSend full_message], send_reply E)
      end
  end.

(** [message.peer_id.channel_id if hasattr(message.peer_id, 'channel_id') else None] *)
Definition channel_id_of (p : Peer) : option Z :=
  match p with PeerChannel c => Some c | _ => None end.

Definition dedup_id_of (message : Message) : ForwardKey :=
  (channel_id_of (peer_id message), message_id message).

(** The memory management that follows the insertion into
    [_forwarded_messages]. *)
Definition limit_tracked (E : Env) (max_tracked : Z) (forwarded : gset ForwardKey)
    : gset ForwardKey :=
  if len (elements forwarded) >? max_tracked then
    let messages_list := listing E forwarded in
    list_to_set (slice_from ((- max_tracked) / 2) messages_list)
  else forwarded.

Definition set_rate_limiter (self : TeleScoutClient) (rl : RateLimiter) : TeleScoutClient :=
  {| config := config self;
     keyword_matcher := keyword_matcher self;
     rate_limiter := rl;
     _last_forward_time := _last_forward_time self;
     _forwarded_messages := _forwarded_messages self;
     _max_tracked_messages := _max_tracked_messages self;
     on_message_forwarded := on_message_forwarded self |}.

(** What [_process_message] does to the client once
    [_forward_message] has returned: the time of the forward is noted,
    the key remembered, the tracked keys limited, the message recorded
    by the rate limiter [rl] (the limiter as [can_send_message] left
    it). *)
Definition record_forward (self : TeleScoutClient) (rl : RateLimiter) (E : Env)
    (channel_id : option Z) (dedup_id : ForwardKey) : TeleScoutClient :=
  {| config := config self;
     keyword_matcher := keyword_matcher self;
     rate_limiter := record_message rl (time_record E) channel_id;
     _last_forward_time := <[channel_id := now E]> (_last_forward_time self);
     _forwarded_messages :=
       limit_tracked E (_max_tracked_messages self)
         ({[dedup_id]} ∪ _forwarded_messages self);
     _max_tracked_messages := _max_tracked_messages self;
     on_message_forwarded := on_message_forwarded self |}.

(** The spacing gate: the last forward from this source is less than
    [forward_delay] seconds old. *)
Definition too_soon (self : TeleScoutClient) (E : Env) (channel_id : option Z) : bool :=
  match _last_forward_time self !! channel_id with
  | Some last => now E - last <? forward_delay (config self)
  | None => false
  end.

(** [TeleScoutClient._process_message]: the new state of the client,
    the value returned, and what was done. *)
Definition _process_message (self : TeleScoutClient) (E : Env)
    (message : Message) (is_historical : bool)
    : TeleScoutClient * bool * list Event :=
  match text message with
  | None | Some [] => (self, false, [])
  | Some message_text =>
      if negb (has_match (keyword_matcher self) message_text) then (self, false, [])
      else
        let channel_id := channel_id_of (peer_id message) in
        let dedup_id := (channel_id, message_id message) in
        if decide (dedup_id ∈ _forwarded_messages self) then (self, false, [])
        else
          let '(rl, allowed) :=
            can_send_message (rate_limiter self) (time_check E) channel_id in
          let self1 := set_rate_limiter self rl in
          if negb allowed then (self1, false, [])
          else if too_soon self E channel_id then (self1, false, [])
          else
            let '(evs, r) := _forward_message self1 E message is_historical in
            let evs := EvForward message is_historical :: evs in
            match r with
            | Return _ =>
                (record_forward self rl E channel_id dedup_id, true,
                 evs ++ (if on_message_forwarded self then [EvCallback] else []))
            | Raise (FloodWaitError seconds) =>
                (self1, false, evs ++ [EvSleep seconds])
            | Raise OtherError => (self1, false, evs)
            end
  end.

(** One incoming message with the surroundings of its processing. *)
Record Call := {
  call_env : Env;
  call_message : Message;
  call_historical : bool
}.

Record Outcome := {
  out_call : Call;
  out_result : bool;
  out_events : list Event
}.

(** The messages of a session handed to [_process_message] one after
    the other (by the historical scan and by the live handler). *)
Fixpoint process_stream (self : TeleScoutClient) (calls : list Call)
    : TeleScoutClient * list Outcome :=
  match calls with
  | [] => (self, [])
  | c :: calls' =>
      let '(self', r, evs) :=
        _process_message self (call_env c) (call_message c) (call_historical c) in
      let '(self'', outs) := process_stream self' calls' in
      (self'', {| out_call := c; out_result := r; out_events := evs |} :: outs)
  end.

End Client.

(** ** Concrete inputs used by the examples below *)

Definition example_date : datetime :=
  {| year := 2025; month := 8; day := 5; hour := 17; minute := 59; second := 9 |}.

Definition four_keywords : list pystr := [py "alpha"; py "beta"; py "gamma"; py "delta"].

Definition blank_keyword : list pystr := [py "   "].

(** The integers [lo], [lo + 1], ... ([n] of them). *)
Definition zrange (lo : Z) (n : nat) : list Z := (fun i => lo + Z.of_nat i) <$> seq 0 n.

(** The text that [_forward_message] hands to [send_message] when the
    entity is [channel] and the text of the message is [body]. *)
Definition full_message_of {U : Unicode} (self : TeleScoutClient) (channel : Entity)
    (message : Message) (is_historical : bool) (body : pystr) : pystr :=
  let header :=
    forward_header (default (py "Unknown Channel") (title channel))
      (get_match_summary (keyword_matcher self) body)
      (format_datetime (date message)) is_historical in
  header ++ forward_text (max_message_length (config self)) header body.

(** The header of the message forwarded for [message] when its text
    is [body] and the entity is [channel]. *)
Definition header_of {U : Unicode} (self : TeleScoutClient) (channel : Entity)
    (message : Message) (is_historical : bool) (body : pystr) : pystr :=
  forward_header (default (py "Unknown Channel") (title channel))
    (get_match_summary (keyword_matcher self) body)
    (format_datetime (date message)) is_historical.

(** The truncation rule, as a relation between the text handed to
    [send_message] and the message it was composed from. *)
Definition truncation_rule_spec {U : Unicode} (self : TeleScoutClient) (E : Env)
    (message : Message) (is_historical : bool) (sent : pystr) : Prop :=
  exists body channel,
    text message = Some body /\ get_entity_reply E = Return channel /\
    let header := header_of self channel message is_historical body in
    let limit := max_message_length (config self) in
    let room := limit - len header - 100 in
    (len body > limit -> room > 0 ->
       sent = header ++ take (Z.to_nat room) body
                     ++ nl ++ nl ++ py "[Message truncated for security]")
    /\ (len body > limit -> room <= 0 ->
       sent = header ++ py "[Message too long, content hidden for security]")
    /\ (len body <= limit -> sent = header ++ body).

(** What holds of a text sent after a truncation that left room. *)
Definition truncated_within_limit_spec {U : Unicode} (self : TeleScoutClient) (E : Env)
    (message : Message) (is_historical : bool) (sent : pystr) : Prop :=
  exists body channel,
    text message = Some body /\ get_entity_reply E = Return channel /\
    let header := header_of self channel message is_historical body in
    let limit := max_message_length (config self) in
    (len body > limit -> limit - len header - 100 > 0 ->
       len sent = limit - 66 /\ len sent <= limit
       /\ endswith sent (py "[Message truncated for security]") = true).

(** The limiter as [can_send_message] leaves it when [_process_message]
    asks it about [message]. *)
Definition limiter_after_check {U : Unicode} (self : TeleScoutClient) (E : Env)
    (message : Message) : RateLimiter :=
  (can_send_message (rate_limiter self) (time_check E)
     (channel_id_of (peer_id message))).1.

(** What a flood wait of [d] seconds during the send leaves behind. *)
Definition flood_wait_spec {U : Unicode} (self : TeleScoutClient) (E : Env)
    (message : Message) (is_historical : bool) (sent : pystr) (d : Z) : Prop :=
  let '(self', result, events) := _process_message self E message is_historical in
  result = false
  /\ events = [EvForward message is_historical; EvGetEntity (peer_id message);
               EvSend sent; EvSleep d]
  /\ self' = set_rate_limiter self (limiter_after_check self E message)
  /\ _forwarded_messages self' = _forwarded_messages self
  /\ _last_forward_time self' = _last_forward_time self
  /\ global_messages (rate_limiter self') `suffix_of` global_messages (rate_limiter self)
  /\ (forall c, channel_queue (rate_limiter self') c
                `suffix_of` channel_queue (rate_limiter self) c).


(** The events of a call of [_process_message]. *)
Definition events_of {U : Unicode} (self : TeleScoutClient) (E : Env)
    (message : Message) (is_historical : bool) : list Event :=
  (_process_message self E message is_historical).2.

(** A configuration with [max_message_length = 200], and one with 400. *)
Definition example_config : Config :=
  {| config_keywords := [py "deploy"];
     forward_delay := 5;
     max_messages_per_hour := 60;
     max_messages_per_channel_per_hour := 20;
     max_message_length := 200 |}.

Definition roomy_config : Config :=
  {| config_keywords := [py "deploy"];
     forward_delay := 5;
     max_messages_per_hour := 60;
     max_messages_per_channel_per_hour := 20;
     max_message_length := 400 |}.

(** A body of 500 characters that matches the keyword. *)
Definition long_body : pystr := py "deploy " ++ replicate 493 97%N.

Definition long_message : Message :=
  {| text := Some long_body;
     peer_id := PeerChannel 42;
     message_id := 1000;
     date := example_date |}.

Definition news : Entity := {| title := Some (py "News") |}.

(** Surroundings in which the platform accepts everything. *)
Definition calm_env (t : Z) : Env :=
  {| now := t; time_check := t; time_record := t;
     get_entity_reply := Return news;
     send_reply := Return tt;
     listing := elements |}.




(** Surroundings in which the send is answered by a flood wait. *)
Definition flood_env (t d : Z) : Env :=
  {| now := t; time_check := t; time_record := t;
     get_entity_reply := Return news;
     send_reply := Raise (FloodWaitError d);
     listing := elements |}.

(** ** A session: what is observed of a stream of calls *)

(** The key of the message of an outcome. *)
Definition out_key (o : Outcome) : ForwardKey := dedup_id_of (call_message (out_call o)).

(** The keys of the messages forwarded with success, in order. *)
Definition forwarded_keys (outs : list Outcome) : list ForwardKey :=
  out_key <$> List.filter out_result outs.

(** The event is a call of [_forward_message] for a message with key
    [key]. *)
Definition is_forward_of (key : ForwardKey) (ev : Event) : bool :=
  match ev with
  | EvForward m _ => bool_decide (dedup_id_of m = key)
  | _ => false
  end.

(** How often [_forward_message] was called for [key]. *)
Definition forward_count (key : ForwardKey) (outs : list Outcome) : nat :=
  length (List.filter (is_forward_of key) (concat (out_events <$> outs))).

(** At most one success per key, and no call of the forwarder for a
    key after its success. *)
Definition at_most_once_spec (outs : list Outcome) : Prop :=
  NoDup (forwarded_keys outs)
  /\ forall pre o post,
       outs = pre ++ o :: post -> out_result o = true ->
       forward_count (out_key o) post = 0%nat.

(** A short matching message, and surroundings in which the send
    fails with an error that is not a flood wait. *)
Definition short_message : Message :=
  {| text := Some (py "We deploy at noon.");
     peer_id := PeerChannel 42;
     message_id := 1000;
     date := example_date |}.

Definition failing_env (t : Z) : Env :=
  {| now := t; time_check := t; time_record := t;
     get_entity_reply := Return news;
     send_reply := Raise OtherError;
     listing := elements |}.

(** The same message delivered twice, the first send failing. *)
Definition replay_after_failure : list Call :=
  [ {| call_env := failing_env 100; call_message := short_message;
       call_historical := true |};
    {| call_env := calm_env 200; call_message := short_message;
       call_historical := true |} ].

(** The same message delivered twice, both sends accepted. *)
Definition replay : list Call :=
  [ {| call_env := calm_env 100; call_message := short_message;
       call_historical := true |};
    {| call_env := calm_env 200; call_message := short_message;
       call_historical := true |} ].

(** ** Rate windows *)

(** [t] lies in the window of 3600 seconds that ends at [T]. *)
Definition in_window (T t : Z) : bool := (T - 3600 <=? t) && (t <=? T).

(** How many of the instants [times] lie in that window. *)
Definition window_count (T : Z) (times : list Z) : Z :=
  len (List.filter (in_window T) times).

(** The instants at which the successful forwards of a session were
    recorded, in order; and those of the forwards from channel [c]. *)
Definition record_time (o : Outcome) : Z := time_record (call_env (out_call o)).

Definition record_times (outs : list Outcome) : list Z :=
  record_time <$> List.filter out_result outs.

Definition from_channel (c : Z) (o : Outcome) : bool :=
  out_result o
  && bool_decide (channel_id_of (peer_id (call_message (out_call o))) = Some c).

Definition channel_record_times (c : Z) (outs : list Outcome) : list Z :=
  record_time <$> List.filter (from_channel c) outs.

(** The clock does not go backwards: from [t0] on, the readings taken
    by the calls (first by [can_send_message], then by
    [record_message]) never decrease. *)
Fixpoint clock_from (t0 : Z) (calls : list Call) : Prop :=
  match calls with
  | [] => True
  | c :: calls' =>
      t0 <= time_check (call_env c)
      /\ time_check (call_env c) <= time_record (call_env c)
      /\ clock_from (time_record (call_env c)) calls'
  end.

(** What [can_send_message] returns and does. *)
Definition can_send_spec (rl : RateLimiter) (t : Z) (cid : option Z) : Prop :=
  let global := _cleanup_old_messages (global_messages rl) t in
  let queue c := _cleanup_old_messages (channel_queue rl c) t in
  (can_send_message rl t cid).2
  = negb (len global >=? max_per_hour rl)
    && match cid with
       | Some c => negb (len (queue c) >=? max_per_channel_per_hour rl)
       | None => true
       end
  /\ global_messages (can_send_message rl t cid).1 = global
  /\ (forall c, cid = Some c -> len global < max_per_hour rl ->
        channel_queue (can_send_message rl t cid).1 c = queue c)
  /\ (StronglySorted Z.le (global_messages rl) ->
      global = filter (fun x => t - 3600 <= x) (global_messages rl))
  /\ (forall c, StronglySorted Z.le (channel_queue rl c) ->
        queue c = filter (fun x => t - 3600 <= x) (channel_queue rl c))
  /\ (max_per_hour rl <= len global ->
      channel_messages (can_send_message rl t cid).1 = channel_messages rl)
  /\ (cid = None ->
      channel_messages (can_send_message rl t cid).1 = channel_messages rl)
  /\ (forall c, cid <> Some c ->
        channel_queue (can_send_message rl t cid).1 c = channel_queue rl c).

(** The two quotas, over every window of 3600 seconds. *)
Definition rate_limit_spec (config : Config) (outs : list Outcome) : Prop :=
  forall T,
    window_count T (record_times outs) <= max_messages_per_hour config
    /\ forall c, window_count T (channel_record_times c outs)
                 <= max_messages_per_channel_per_hour config.

(** The invariant that ties a queue of the limiter to the history of
    the forwards it has recorded: the queue is the end of the history,
    what was removed is more than an hour older than the time [L]
    reached so far, and no window holds more than [limit] instants. *)
Definition window_inv (limit L : Z) (history queue : list Z) : Prop :=
  exists removed,
    history = removed ++ queue
    /\ Forall (fun x => x < L - 3600) removed
    /\ StronglySorted Z.le queue
    /\ Forall (fun x => x <= L) queue
    /\ forall T, window_count T history <= limit.

(** The invariant of the whole limiter: [hg] is the history of the
    instants recorded globally, [hc c] of those recorded for channel
    [c]. *)
Definition limiter_inv (rl : RateLimiter) (L : Z) (hg : list Z) (hc : Z -> list Z)
    : Prop :=
  window_inv (max_per_hour rl) L hg (global_messages rl)
  /\ forall c, window_inv (max_per_channel_per_hour rl) L (hc c) (channel_queue rl c).

(** Four matching messages of one channel within a second, for a
    limit of three an hour. *)
Definition tight_config : Config :=
  {| config_keywords := [py "deploy"];
     forward_delay := 0;
     max_messages_per_hour := 3;
     max_messages_per_channel_per_hour := 20;
     max_message_length := 4000 |}.

Definition burst : list Call :=
  (fun i => {| call_env := calm_env 100;
               call_message :=
                 {| text := Some (py "We deploy at noon.");
                    peer_id := PeerChannel 42;
                    message_id := i;
                    date := example_date |};
               call_historical := false |}) <$> [1; 2; 3; 4].

(** ** A full set of forwarded keys *)

(** The client with another set of forwarded keys. *)
Definition with_forwarded {U : Unicode} (self : TeleScoutClient)
    (forwarded : gset ForwardKey) : TeleScoutClient :=
  {| config := config self;
     keyword_matcher := keyword_matcher self;
     rate_limiter := rate_limiter self;
     _last_forward_time := _last_forward_time self;
     _forwarded_messages := forwarded;
     _max_tracked_messages := _max_tracked_messages self;
     on_message_forwarded := on_message_forwarded self |}.

(** The keys of the messages 1, ..., [n] of channel 1. *)
Definition first_keys (n : nat) : gset ForwardKey :=
  list_to_set ((fun i => (Some 1, i)) <$> zrange 1 n).

(** Message 10001 of channel 1, and its key. *)
Definition last_message : Message :=
  {| text := Some (py "We deploy at noon.");
     peer_id := PeerChannel 1;
     message_id := 10001;
     date := example_date |}.

Definition last_key : ForwardKey := (Some 1, 10001).

(** An enumeration of a set that begins with [last_key] when it is in
    the set. *)
Definition last_key_first (s : gset ForwardKey) : list ForwardKey :=
  if decide (last_key ∈ s) then last_key :: elements (s ∖ {[last_key]})
  else elements s.

Definition crowded_env (t : Z) : Env :=
  {| now := t; time_check := t; time_record := t;
     get_entity_reply := Return news;
     send_reply := Return tt;
     listing := last_key_first |}.

(** A client that has forwarded the messages 1, ..., 10000 of
    channel 1. *)
Definition full_client : TeleScoutClient :=
  with_forwarded (U := ascii_unicode)
    (TeleScoutClient_init (U := ascii_unicode) example_config)
    (first_keys (Z.to_nat 10000)).

(** ** rate_limiter.py: the status *)

(** The dictionary returned by [get_status]. *)
Record Status := {
  global_messages_last_hour : Z;
  global_limit : Z;
  global_remaining : Z;
  channels_tracked : Z;
  per_channel_limit : Z
}.

(** [RateLimiter.get_status]: every queue is cleaned, then the counts
    are read. *)
Definition get_status (self : RateLimiter) (current_time : Z) : RateLimiter * Status :=
  let global := _cleanup_old_messages (global_messages self) current_time in
  let channels :=
    (fun queue => _cleanup_old_messages queue current_time) <$> channel_messages self in
  ({| max_per_hour := max_per_hour self;
      max_per_channel_per_hour := max_per_channel_per_hour self;
      global_messages := global;
      channel_messages := channels |},
   {| global_messages_last_hour := len global;
      global_limit := max_per_hour self;
      global_remaining := Z.max 0 (max_per_hour self - len global);
      channels_tracked := Z.of_nat (size channels);
      per_channel_limit := max_per_channel_per_hour self |}).

(** ** utils.py: truncate_text *)

(** [truncate_text(text, max_length, suffix)] *)
Definition truncate_text (text : pystr) (max_length : Z) (suffix : pystr) : pystr :=
  if len text <=? max_length then text
  else slice_to (max_length - len suffix) text ++ suffix.

(** ** security.py: sanitize_user_input *)

(** [ord(char) >= 32 or char in '\n\t'] *)
Definition printable (c : codepoint) : bool :=
  ((32 <=? c) || (c =? 10) || (c =? 9))%N.

(** [sanitize_user_input(text, max_length)] for a [str]. *)
Definition sanitize_user_input (text : pystr) (max_length : Z) : pystr :=
  let sanitized := List.filter printable text in
  if len sanitized >? max_length then slice_to max_length sanitized else sanitized.

(** ** More observations of a session *)

(** The source id and the time of the call of an outcome. *)
Definition out_cid (o : Outcome) : option Z :=
  channel_id_of (peer_id (call_message (out_call o))).

Definition out_now (o : Outcome) : Z := now (call_env (out_call o)).

(** The texts handed to [send_message], and the sleeps, among some
    events. *)
Definition sends (events : list Event) : list pystr :=
  omap (fun ev => match ev with EvSend s => Some s | _ => None end) events.

Definition sleeps (events : list Event) : list Z :=
  omap (fun ev => match ev with EvSleep d => Some d | _ => None end) events.

(** Three messages of channel 42 that arrive at the seconds 100, 102
    and 105, and a configuration whose limit per hour is zero. *)
Definition spaced_calls : list Call :=
  (fun ti : Z * Z =>
     {| call_env := calm_env ti.1;
        call_message :=
          {| text := Some (py "We deploy at noon.");
             peer_id := PeerChannel 42;
             message_id := ti.2;
             date := example_date |};
        call_historical := false |}) <$> [(100, 1); (102, 2); (105, 3)].

Definition closed_config : Config :=
  {| config_keywords := [py "deploy"];
     forward_delay := 0;
     max_messages_per_hour := 0;
     max_messages_per_channel_per_hour := 20;
     max_message_length := 4000 |}.

(** ** The quota per source, for every kind of source *)

#[global] Instance Peer_eq_dec : EqDecision Peer.
Proof. solve_decision. Defined.

(** The instants at which the successful forwards from the peer [p]
    (a channel, a small group or a user) were recorded. *)
Definition from_peer (p : Peer) (o : Outcome) : bool :=
  out_result o && bool_decide (peer_id (call_message (out_call o)) = p).

Definition peer_record_times (p : Peer) (outs : list Outcome) : list Z :=
  record_time <$> List.filter (from_peer p) outs.

(** The quota per source for every source, with a channel id or
    without. *)
Definition per_source_quota_spec (config : Config) (outs : list Outcome) : Prop :=
  forall T p,
    window_count T (peer_record_times p outs)
    <= max_messages_per_channel_per_hour config.

(** Five matching messages of one small group within a second, for a
    limit of one an hour per source. *)
Definition chat_config : Config :=
  {| config_keywords := [py "deploy"];
     forward_delay := 0;
     max_messages_per_hour := 60;
     max_messages_per_channel_per_hour := 1;
     max_message_length := 4000 |}.

Definition chat_burst : list Call :=
  (fun i => {| call_env := calm_env 100;
               call_message :=
                 {| text := Some (py "deploy again");
                    peer_id := PeerChat 9;
                    message_id := i;
                    date := example_date |};
               call_historical := false |}) <$> [1; 2; 3; 4; 5].

(** A limiter with a global limit of two that has recorded a forward
    from channel 42 at second 0 and two from channel 7 at the seconds
    3000 and 3650. *)
Definition stale_limiter : RateLimiter :=
  record_message
    (record_message
       (record_message (RateLimiter_init 2 5) 0 (Some 42))
       3000 (Some 7))
    3650 (Some 7).

(** Two messages of channel 42 whose sends take time: the first call
    reads the clock at second 100 and its forward is recorded at
    second 105, the second reads the clock at second 105 and its
    forward is recorded in the same second. *)
Definition slow_send_calls : list Call :=
  (fun ti : Z * Z =>
     {| call_env :=
          {| now := ti.1; time_check := ti.1; time_record := 105;
             get_entity_reply := Return news;
             send_reply := Return tt;
             listing := elements |};
        call_message :=
          {| text := Some (py "We deploy at noon.");
             peer_id := PeerChannel 42;
             message_id := ti.2;
             date := example_date |};
        call_historical := false |}) <$> [(100, 1); (105, 2)].

(** * Properties *)

(** ** Auxiliary facts *)

Lemma zrange_forallb (P : Z -> bool) (lo : Z) (n : nat) :
  forallb P (zrange lo n) = true ->
  forall z, lo <= z < lo + Z.of_nat n -> P z = true.
Proof.
  intros H z Hz. rewrite forallb_forall in H. apply H.
  unfold zrange. apply list_elem_of_In, list_elem_of_fmap.
  exists (Z.to_nat (z - lo)). split; [lia|].
  apply list_elem_of_In, in_seq. lia.
Qed.

Lemma len_app {A} (l k : list A) : len (l ++ k) = len l + len k.
Proof. unfold len. rewrite length_app. lia. Qed.

Lemma len_nonneg {A} (l : list A) : 0 <= len l.
Proof. unfold len. lia. Qed.

Lemma endswith_app (s suffix : pystr) : endswith (s ++ suffix) suffix = true.
Proof.
  unfold endswith. apply bool_decide_eq_true.
  rewrite length_app.
  replace (length s + length suffix - length suffix)%nat with (length s) by lia.
  by rewrite drop_app_length.
Qed.

(** ** utils.py: the date format *)

Example format_datetime_example :
  format_datetime example_date = py "5th August 2025 05:59PM".
Proof. reflexivity. Qed.

Lemma year_four_digits (y : Z) :
  1000 <= y <= 9999 -> length (str_of_int y) = 4%nat /\ zero_pad 4 y = str_of_int y.
Proof.
  intros Hy.
  pose (P := fun y => bool_decide (length (str_of_int y) = 4%nat)).
  assert (H : P y = true).
  { apply (zrange_forallb P 1000 (Z.to_nat 9000)); [by vm_compute | lia]. }
  apply bool_decide_eq_true in H. split; [done|].
  unfold zero_pad. cbv zeta. by rewrite H.
Qed.

Lemma two_digits (n : Z) : 0 <= n <= 99 -> length (zero_pad 2 n) = 2%nat.
Proof.
  intros Hn.
  pose (P := fun n => bool_decide (length (zero_pad 2 n) = 2%nat)).
  assert (H : P n = true).
  { apply (zrange_forallb P 0 100); [by vm_compute | lia]. }
  by apply bool_decide_eq_true in H.
Qed.

Lemma ordinal_suffix_rule (d : Z) :
  1 <= d <= 31 ->
  ordinal_suffix d =
    if bool_decide (d = 11 \/ d = 12 \/ d = 13) then py "th"
    else if bool_decide (d mod 10 = 1) then py "st"
    else if bool_decide (d mod 10 = 2) then py "nd"
    else if bool_decide (d mod 10 = 3) then py "rd"
    else py "th".
Proof.
  intros Hd.
  pose (P := fun d => bool_decide (ordinal_suffix d =
    if bool_decide (d = 11 \/ d = 12 \/ d = 13) then py "th"
    else if bool_decide (d mod 10 = 1) then py "st"
    else if bool_decide (d mod 10 = 2) then py "nd"
    else if bool_decide (d mod 10 = 3) then py "rd"
    else py "th")).
  assert (H : P d = true).
  { apply (zrange_forallb P 1 31); [by vm_compute | lia]. }
  by apply bool_decide_eq_true in H.
Qed.

Lemma strftime_app_plain (pre fmt : pystr) (dt : datetime) :
  Forall (fun c => c <> 37%N) pre ->
  strftime (pre ++ fmt) dt = pre ++ strftime fmt dt.
Proof.
  induction 1 as [|c pre Hc _ IH]; [done|].
  change ((c :: pre) ++ fmt) with (c :: (pre ++ fmt)).
  assert (Hs : forall l, strftime (c :: l) dt = c :: strftime l dt).
  { intros l. destruct c as [|p]; [done|].
    simpl. repeat (destruct p as [p|p|]; try done). }
  rewrite Hs. simpl. f_equal. exact IH.
Qed.

Lemma day_prefix_plain (d : Z) :
  1 <= d <= 31 -> Forall (fun c => c <> 37%N) (str_of_int d ++ ordinal_suffix d).
Proof.
  intros Hd.
  pose (P := fun d => forallb (fun c => negb (c =? 37)%N)
                          (str_of_int d ++ ordinal_suffix d)).
  assert (H : P d = true).
  { apply (zrange_forallb P 1 31); [by vm_compute | lia]. }
  unfold P in H. rewrite forallb_forall in H.
  apply Forall_forall. intros c Hc%list_elem_of_In.
  specialize (H c Hc). apply negb_true_iff, N.eqb_neq in H. done.
Qed.

Lemma strftime_tail (dt : datetime) :
  strftime (py " %B %Y %I:%M%p") dt =
    py " " ++ month_name (month dt) ++ py " " ++ zero_pad 4 (year dt) ++ py " "
    ++ zero_pad 2 (if hour dt mod 12 =? 0 then 12 else hour dt mod 12)
    ++ py ":" ++ zero_pad 2 (minute dt)
    ++ (if hour dt <? 12 then py "AM" else py "PM").
Proof.
  change (py " %B %Y %I:%M%p")
    with [32%N; 37%N; 66%N; 32%N; 37%N; 89%N; 32%N; 37%N; 73%N; 58%N;
          37%N; 77%N; 37%N; 112%N].
  cbn [strftime]. unfold directive. cbn [N.eqb Pos.eqb].
  rewrite app_nil_r. reflexivity.
Qed.

(** C9. For a day of the month [d] in 1..31, [format_datetime] writes
    the day followed by 'st', 'nd', 'rd' when [d mod 10] is 1, 2, 3 and
    by 'th' otherwise, 11, 12 and 13 always getting 'th'; then come the
    full month name, the year in four digits, and the time on a
    12-hour clock: two digits for the hour, a colon, two digits for the
    minutes, and AM or PM. *)
Theorem format_datetime_ordinal (dt : datetime) :
  1 <= day dt <= 31 -> 1 <= month dt <= 12 -> 1000 <= year dt <= 9999 ->
  0 <= hour dt <= 23 -> 0 <= minute dt <= 59 ->
  let d := day dt in
  let suffix :=
    if bool_decide (d = 11 \/ d = 12 \/ d = 13) then py "th"
    else if bool_decide (d mod 10 = 1) then py "st"
    else if bool_decide (d mod 10 = 2) then py "nd"
    else if bool_decide (d mod 10 = 3) then py "rd"
    else py "th" in
  let hour12 := if bool_decide (hour dt mod 12 = 0) then 12 else hour dt mod 12 in
  format_datetime dt =
    str_of_int d ++ suffix ++ py " " ++ month_name (month dt) ++ py " "
    ++ str_of_int (year dt) ++ py " "
    ++ zero_pad 2 hour12 ++ py ":" ++ zero_pad 2 (minute dt)
    ++ (if bool_decide (hour dt < 12) then py "AM" else py "PM")
  /\ length (str_of_int (year dt)) = 4%nat
  /\ 1 <= hour12 <= 12 /\ length (zero_pad 2 hour12) = 2%nat
  /\ length (zero_pad 2 (minute dt)) = 2%nat.
Proof.
  intros Hd Hm Hy Hh Hmin d suffix hour12.
  assert (Hh12 : 1 <= hour12 <= 12).
  { pose proof (Z.mod_pos_bound (hour dt) 12 eq_refl).
    unfold hour12. case_bool_decide; lia. }
  destruct (year_four_digits (year dt) Hy) as [Hlen Hpad].
  split.
  2:{ clearbody hour12. split; [done|]. split; [done|].
      split; apply two_digits; lia. }
  unfold format_datetime. fold d.
  rewrite (app_assoc (str_of_int d)).
  rewrite strftime_app_plain by (apply day_prefix_plain; done).
  rewrite strftime_tail, Hpad, (ordinal_suffix_rule d Hd).
  fold suffix. rewrite <- (app_assoc (str_of_int d)).
  replace (if hour dt mod 12 =? 0 then 12 else hour dt mod 12) with hour12.
  2:{ unfold hour12. case_bool_decide as H0.
      - by rewrite H0.
      - apply Z.eqb_neq in H0. by rewrite H0. }
  destruct (Z.ltb_spec (hour dt) 12); case_bool_decide; try lia; reflexivity.
Qed.

Lemma format_datetime_ordinal_witness :
  1 <= day example_date <= 31 /\ 1 <= month example_date <= 12
  /\ 1000 <= year example_date <= 9999
  /\ 0 <= hour example_date <= 23 /\ 0 <= minute example_date <= 59
  /\ format_datetime example_date = py "5th August 2025 05:59PM".
Proof.
  assert (Hd : 1 <= day example_date <= 31) by (simpl; lia).
  assert (Hm : 1 <= month example_date <= 12) by (simpl; lia).
  assert (Hy : 1000 <= year example_date <= 9999) by (simpl; lia).
  assert (Hh : 0 <= hour example_date <= 23) by (simpl; lia).
  assert (Hmin : 0 <= minute example_date <= 59) by (simpl; lia).
  repeat (split; [assumption|]).
  destruct (format_datetime_ordinal example_date Hd Hm Hy Hh Hmin) as [H _].
  rewrite H. reflexivity.
Defined.

(** ** keyword_matcher.py *)

Section MatcherFacts.
Context {U : Unicode}.

Lemma KeywordMatcher_init_keywords (kws : list pystr) :
  keywords (KeywordMatcher_init kws) = (fun kw => strip (str_lower kw)) <$> kws
  /\ length (patterns (KeywordMatcher_init kws)) = length kws.
Proof. split; [done|]. simpl. by rewrite !length_fmap. Qed.

Lemma filter_patterns (text : pystr) (kws : list pystr) :
  fst <$> filter (fun kp : pystr * Pattern => search kp.2 text = true)
            ((fun keyword => (keyword, compile keyword)) <$> kws)
  = filter (fun kw => search (compile kw) text = true) kws.
Proof.
  induction kws as [|kw kws IH]; [done|].
  rewrite fmap_cons, !filter_cons.
  change ((kw, compile kw).2) with (compile kw).
  destruct (decide (search (compile kw) text = true));
    rewrite ?fmap_cons, IH; done.
Qed.

Lemma find_matches_filter (kws : list pystr) (text : pystr) :
  find_matches (KeywordMatcher_init kws) text =
    match text with
    | [] => []
    | _ => filter (fun kw => search (compile kw) text = true)
             (keywords (KeywordMatcher_init kws))
    end.
Proof.
  destruct text as [|c text]; [done|].
  unfold find_matches. simpl patterns. apply filter_patterns.
Qed.

(** The pattern of an empty keyword, [\b\b], is found in every text
    that has a word character. *)
Lemma search_empty_keyword (text : pystr) (c : codepoint) :
  c ∈ text -> is_word c = true -> search (compile []) text = true.
Proof.
  intros Hin Hw.
  assert (Hfirst : exists pre c' rest,
            text = pre ++ c' :: rest /\ is_word c' = true
            /\ Forall (fun x => is_word x = false) pre).
  { clear -Hin Hw. induction text as [|x text IH]; [by apply elem_of_nil in Hin|].
    destruct (is_word x) eqn:Hx.
    - exists [], x, text. by repeat split.
    - apply elem_of_cons in Hin as [->|Hin]; [congruence|].
      destruct (IH Hin) as (pre & c' & rest & -> & Hc' & Hpre).
      exists (x :: pre), c', rest. repeat split; [done|]. by constructor. }
  destruct Hfirst as (pre & c' & rest & -> & Hc' & Hpre).
  unfold search. apply existsb_exists. exists (length pre). split.
  { apply in_seq. rewrite length_app. simpl. lia. }
  unfold match_at. simpl literal. rewrite Nat.add_0_r.
  assert (Hb : boundary (pre ++ c' :: rest) (length pre) = true).
  { unfold boundary, pystr, codepoint in *.
    rewrite (list_lookup_middle pre rest c' (length pre) eq_refl).
    cbn [word_char]. rewrite Hc'.
    destruct pre as [|x pre _] using rev_ind; [done|].
    apply Forall_app in Hpre as [_ Hx]. apply Forall_inv in Hx.
    rewrite length_app, Nat.add_1_r. cbn [char_before length].
    unfold pystr, codepoint. rewrite <- app_assoc.
    change ([x] ++ c' :: rest) with (x :: c' :: rest).
    rewrite (list_lookup_middle pre (c' :: rest) x (length pre) eq_refl).
    cbn [word_char]. by rewrite Hx. }
  rewrite Hb. by destruct (drop (length pre) (pre ++ c' :: rest)).
Qed.

End MatcherFacts.

Example word_boundary_examples :
  has_match (U := ascii_unicode) (KeywordMatcher_init (U := ascii_unicode) [py "cat"])
    <$> [py "a cat sat"; py "CAT!"; py "category"; py "scatter"]
  = [true; true; false; false].
Proof. reflexivity. Qed.

(** C7. A keyword that is empty once lowercased and trimmed is not
    discarded by the constructor: for the keyword list ["   "] the
    matcher keeps the keyword '' with a pattern of its own, and that
    pattern is found in the text "hello", which is reported as a
    match of ''. *)
Theorem blank_keyword_kept :
  let self := KeywordMatcher_init (U := ascii_unicode) blank_keyword in
  keywords self = [[]]
  /\ length (patterns self) = 1%nat
  /\ has_match (U := ascii_unicode) self (py "hello") = true
  /\ find_matches (U := ascii_unicode) self (py "hello") = [[]]
  /\ get_match_summary (U := ascii_unicode) self (py "hello")
     = Some (py "Keyword matched: ''").
Proof. repeat split. Qed.

(** C8, the claim as stated fails: with four matching keywords the
    overflow suffix is separated from the last quoted keyword by a
    space. *)
Lemma match_summary_overflow_space :
  get_match_summary (U := ascii_unicode)
    (KeywordMatcher_init (U := ascii_unicode) four_keywords)
    (py "delta, gamma, beta and alpha")
  = Some (py "Keywords matched: 'alpha', 'beta', 'gamma' (+1 more)")
  /\ get_match_summary (U := ascii_unicode)
       (KeywordMatcher_init (U := ascii_unicode) four_keywords)
       (py "delta, gamma, beta and alpha")
     <> Some (py "Keywords matched: 'alpha', 'beta', 'gamma'(+1 more)").
Proof. split; [reflexivity|]. vm_compute. congruence. Qed.

(** C8, amended. [get_match_summary] returns none when no keyword
    matches; "Keyword matched: 'X'" when exactly one keyword matches;
    otherwise "Keywords matched: " followed by the first three matched
    keywords, each in single quotes and separated by ", ", followed,
    when more than three matched, by " (+N more)" (with a leading
    space), N being the number of matched keywords not shown. The
    matched keywords are the configured (normalized) keywords whose
    pattern is found in the text, in the configured order. *)
Theorem match_summary_format {U : Unicode} (kws : list pystr) (text : pystr) :
  let self := KeywordMatcher_init kws in
  let matches := find_matches self text in
  matches =
    match text with
    | [] => []
    | _ => filter (fun kw => search (compile kw) text = true)
             ((fun kw => strip (str_lower kw)) <$> kws)
    end
  /\ get_match_summary self text =
     match matches with
     | [] => None
     | [x] => Some (py "Keyword matched: '" ++ x ++ py "'")
     | _ =>
         Some (py "Keywords matched: "
               ++ join (py ", ") ((fun m => py "'" ++ m ++ py "'") <$> take 3 matches)
               ++ (if bool_decide (3 < length matches)%nat
                   then py " (+" ++ str_of_int (Z.of_nat (length matches - 3)) ++ py " more)"
                   else []))
     end.
Proof.
  intros self matches. split.
  { unfold matches, self. by rewrite find_matches_filter. }
  unfold get_match_summary. fold matches.
  destruct matches as [|x [|y rest]]; [done..|].
  f_equal. f_equal. f_equal.
  unfold len. simpl length.
  case_bool_decide as Hn.
  - assert (Hgt : (Z.of_nat (S (S (length rest))) >? 3) = true)
      by (rewrite Z.gtb_ltb; apply Z.ltb_lt; lia).
    rewrite Hgt. do 3 f_equal. lia.
  - assert (Hgt : (Z.of_nat (S (S (length rest))) >? 3) = false)
      by (rewrite Z.gtb_ltb; apply Z.ltb_ge; lia).
    by rewrite Hgt.
Qed.

(** ** telegram_client.py: one call of [_process_message] *)

Section Pipeline.
Context {U : Unicode}.

Lemma forward_message_unfold (self : TeleScoutClient) (E : Env)
    (m : Message) (h : bool) :
  _forward_message self E m h =
    match get_entity_reply E with
    | Raise e => ([EvGetEntity (peer_id m)], Raise e)
    | Return channel =>
        match text m with
        | None => ([EvGetEntity (peer_id m)], Raise OtherError)
        | Some body =>
            ([EvGetEntity (peer_id m); EvSend (full_message_of self channel m h body)],
             send_reply E)
        end
    end.
Proof. reflexivity. Qed.

Lemma forward_message_limiter (self : TeleScoutClient) (rl : RateLimiter)
    (E : Env) (m : Message) (h : bool) :
  _forward_message (set_rate_limiter self rl) E m h = _forward_message self E m h.
Proof. reflexivity. Qed.

(** The three ways in which a call of [_process_message] ends: the
    message is rejected before the rate limiter is asked; it is
    rejected by the rate limiter or by the spacing gate; or
    [_forward_message] is called and its result decides. *)
Lemma process_message_cases (self : TeleScoutClient) (E : Env)
    (m : Message) (h : bool) :
  let cid := channel_id_of (peer_id m) in
  let key := dedup_id_of m in
  let rl := (can_send_message (rate_limiter self) (time_check E) cid).1 in
  let allowed := (can_send_message (rate_limiter self) (time_check E) cid).2 in
  let self1 := set_rate_limiter self rl in
  _process_message self E m h = (self, false, [])
  \/ ((key ∉ _forwarded_messages self)
      /\ (allowed = false \/ too_soon self E cid = true)
      /\ _process_message self E m h = (self1, false, []))
  \/ (exists body,
        text m = Some body /\ body <> []
        /\ has_match (keyword_matcher self) body = true
        /\ (key ∉ _forwarded_messages self)
        /\ allowed = true /\ too_soon self E cid = false
        /\ _process_message self E m h =
             match _forward_message self E m h with
             | (evs, Return _) =>
                 (record_forward self rl E cid key, true,
                  EvForward m h
                  :: (evs ++ (if on_message_forwarded self then [EvCallback] else [])))
             | (evs, Raise (FloodWaitError seconds)) =>
                 (self1, false, EvForward m h :: (evs ++ [EvSleep seconds]))
             | (evs, Raise OtherError) => (self1, false, EvForward m h :: evs)
             end).
Proof.
  intros cid key rl allowed self1.
  unfold _process_message.
  destruct (text m) as [[|c body]|] eqn:Htext; [by left| |by left].
  destruct (has_match (keyword_matcher self) (c :: body)) eqn:Hmatch;
    [|by left].
  cbn [negb]. fold cid. change (cid, message_id m) with key.
  destruct (decide _) as [Hin|Hnin]; [by left|].
  right. subst rl allowed self1.
  destruct (can_send_message (rate_limiter self) (time_check E) cid)
    as [rl allowed] eqn:Hcan.
  cbn [fst snd].
  destruct allowed; cbn [negb];
    [|left; split; [done|]; split; [by left|reflexivity]].
  destruct (too_soon self E cid) eqn:Hsoon;
    [left; split; [done|]; split; [by right|reflexivity]|].
  right. exists (c :: body). repeat (split; [done|]).
  rewrite forward_message_limiter.
  destruct (_forward_message self E m h) as [evs [[]|[seconds|]]]; reflexivity.
Qed.

(** Every text handed to [send_message] is the header followed by the
    (possibly truncated) text of the message. *)
Lemma process_send_text (self : TeleScoutClient) (E : Env)
    (m : Message) (h : bool) (sent : pystr) :
  EvSend sent ∈ events_of self E m h ->
  exists body channel,
    text m = Some body /\ get_entity_reply E = Return channel
    /\ sent = full_message_of self channel m h body.
Proof.
  unfold events_of. intros Hin.
  destruct (process_message_cases self E m h)
    as [Heq|[(_ & _ & Heq)|(body & Htext & _ & _ & _ & _ & _ & Heq)]];
    rewrite Heq in Hin; simpl in Hin;
    [by apply elem_of_nil in Hin ..|].
  rewrite forward_message_unfold, Htext in Hin.
  destruct (get_entity_reply E) as [channel|e] eqn:Hent.
  - exists body, channel. repeat (split; [done|]).
    assert (Hevs : EvSend sent ∈
              [EvForward m h; EvGetEntity (peer_id m);
               EvSend (full_message_of self channel m h body);
               EvCallback; EvSleep 0]
            -> sent = full_message_of self channel m h body).
    { rewrite !elem_of_cons, elem_of_nil. intros [?|[?|[?|[?|[?|[]]]]]]; congruence. }
    apply Hevs.
    destruct (send_reply E) as [[]|[seconds|]]; simpl in Hin;
      [destruct (on_message_forwarded self)| |];
      simpl in Hin; revert Hin; rewrite !elem_of_cons, !elem_of_nil;
      intros Hin; repeat (destruct Hin as [Hin|Hin]; try discriminate Hin);
      try done; injection Hin as ->; tauto.
  - exfalso. destruct e as [seconds|]; simpl in Hin; revert Hin;
      rewrite !elem_of_cons, !elem_of_nil; intros Hin;
      repeat (destruct Hin as [Hin|Hin]; try discriminate Hin); done.
Qed.

End Pipeline.

(** ** telegram_client.py: the text that is sent *)

Section SentText.
Context {U : Unicode}.

Lemma forward_text_cases (limit : Z) (header body : pystr) :
  let room := limit - len header - 100 in
  (len body > limit -> room > 0 ->
     forward_text limit header body
     = take (Z.to_nat room) body ++ nl ++ nl ++ py "[Message truncated for security]")
  /\ (len body > limit -> room <= 0 ->
     forward_text limit header body
     = py "[Message too long, content hidden for security]")
  /\ (len body <= limit -> forward_text limit header body = body).
Proof.
  intros room. unfold forward_text. fold room.
  rewrite !Z.gtb_ltb.
  destruct (Z.ltb_spec limit (len body)), (Z.ltb_spec 0 room);
    repeat split; intros; try lia; try done.
  unfold slice_to. destruct (Z.ltb_spec room 0); [lia|done].
Qed.

(** C6. The text handed to [send_message] is the header followed by
    the body of the message, where: if the body is longer than
    [max_message_length], [room = max_message_length - len(header) -
    100] is computed and the body becomes its first [room] characters
    followed by two newlines and "[Message truncated for security]"
    when [room > 0], and is replaced by "[Message too long, content
    hidden for security]" otherwise; if the body is not longer than
    [max_message_length] it is unchanged. *)
Theorem truncation_rule (self : TeleScoutClient) (E : Env)
    (m : Message) (h : bool) (sent : pystr) :
  EvSend sent ∈ events_of self E m h ->
  truncation_rule_spec self E m h sent.
Proof.
  intros Hin.
  destruct (process_send_text self E m h sent Hin)
    as (body & channel & Htext & Hent & ->).
  exists body, channel. split; [done|]. split; [done|].
  cbv zeta. unfold full_message_of. fold (header_of self channel m h body).
  destruct (forward_text_cases (max_message_length (config self))
              (header_of self channel m h body) body) as (H1 & H2 & H3).
  repeat split; intros.
  - by rewrite H1.
  - by rewrite H2.
  - by rewrite H3.
Qed.

(** C5, amended. When the body of a message is longer than
    [max_message_length] and the header leaves room
    ([max_message_length - len(header) - 100 > 0]), the text handed to
    [send_message] has length [max_message_length - 66], which is at
    most [max_message_length], and ends with "[Message truncated for
    security]". *)
Theorem truncated_text_within_limit (self : TeleScoutClient) (E : Env)
    (m : Message) (h : bool) (sent : pystr) :
  EvSend sent ∈ events_of self E m h ->
  truncated_within_limit_spec self E m h sent.
Proof.
  intros Hin.
  destruct (process_send_text self E m h sent Hin)
    as (body & channel & Htext & Hent & ->).
  exists body, channel. split; [done|]. split; [done|].
  cbv zeta. unfold full_message_of. fold (header_of self channel m h body).
  set (header := header_of self channel m h body).
  set (limit := max_message_length (config self)).
  intros Hlong Hroom.
  destruct (forward_text_cases limit header body) as (H1 & _ & _).
  rewrite (H1 Hlong Hroom).
  assert (Hlen : len (header ++ take (Z.to_nat (limit - len header - 100)) body
                      ++ nl ++ nl ++ py "[Message truncated for security]")
                 = limit - 66).
  { rewrite !len_app.
    change (len (py "[Message truncated for security]")) with 32.
    change (len nl) with 1.
    assert (Htake : len (take (Z.to_nat (limit - len header - 100)) body)
                    = limit - len header - 100).
    { pose proof (len_nonneg header). unfold len in *. rewrite length_take. lia. }
    rewrite Htake. lia. }
  split; [done|]. split; [lia|].
  rewrite !app_assoc. apply endswith_app.
Qed.

End SentText.

(** C5, the claim as stated fails: with [max_message_length = 200]
    and a matching body of 500 characters, the header alone (162
    characters here) leaves no room, the body is replaced by the
    notice that the content is hidden, and the text sent has 209
    characters. *)
Lemma sent_text_exceeds_limit :
  let self := TeleScoutClient_init (U := ascii_unicode) example_config in
  let sent := full_message_of (U := ascii_unicode) self news long_message false long_body in
  max_message_length (config self) = 200
  /\ len long_body = 500
  /\ has_match (U := ascii_unicode) (keyword_matcher self) long_body = true
  /\ events_of (U := ascii_unicode) self (calm_env 100) long_message false
     = [EvForward long_message false; EvGetEntity (PeerChannel 42); EvSend sent]
  /\ len sent = 209
  /\ ~ len sent <= 200
  /\ endswith sent (py "[Message truncated for security]") = false
  /\ endswith sent (py "[Message too long, content hidden for security]") = true.
Proof. vm_compute. repeat split; congruence. Qed.

Lemma truncation_rule_witness :
  let self := TeleScoutClient_init (U := ascii_unicode) example_config in
  let sent := full_message_of (U := ascii_unicode) self news long_message false long_body in
  EvSend sent ∈ events_of (U := ascii_unicode) self (calm_env 100) long_message false
  /\ truncation_rule_spec (U := ascii_unicode) self (calm_env 100) long_message false sent.
Proof.
  intros self sent.
  assert (H : EvSend sent ∈
                events_of (U := ascii_unicode) self (calm_env 100) long_message false).
  { apply list_elem_of_In. vm_compute. tauto. }
  split; [exact H|].
  exact (truncation_rule (U := ascii_unicode) self (calm_env 100) long_message false sent H).
Defined.

Lemma truncated_text_within_limit_witness :
  let self := TeleScoutClient_init (U := ascii_unicode) roomy_config in
  let sent := full_message_of (U := ascii_unicode) self news long_message false long_body in
  EvSend sent ∈ events_of (U := ascii_unicode) self (calm_env 100) long_message false
  /\ truncated_within_limit_spec (U := ascii_unicode) self (calm_env 100)
       long_message false sent
  /\ len sent = 334.
Proof.
  intros self sent.
  assert (H : EvSend sent ∈
                events_of (U := ascii_unicode) self (calm_env 100) long_message false).
  { apply list_elem_of_In. vm_compute. tauto. }
  split; [exact H|]. split; [|reflexivity].
  exact (truncated_text_within_limit (U := ascii_unicode) self (calm_env 100)
           long_message false sent H).
Defined.

(** ** rate_limiter.py: what a check does to the limiter *)

Lemma cleanup_suffix (q : list Z) (t : Z) : _cleanup_old_messages q t `suffix_of` q.
Proof.
  induction q as [|x q IH]; [done|]. simpl.
  destruct (x <? t - 3600); [by apply suffix_cons_r | done].
Qed.

Lemma can_send_message_global (rl : RateLimiter) (t : Z) (cid : option Z) :
  global_messages (can_send_message rl t cid).1
  = _cleanup_old_messages (global_messages rl) t.
Proof.
  unfold can_send_message.
  destruct (_ >=? max_per_hour rl); [done|].
  destruct cid as [c|]; [|done].
  by destruct (_ >=? max_per_channel_per_hour rl).
Qed.

Lemma can_send_message_limits (rl : RateLimiter) (t : Z) (cid : option Z) :
  max_per_hour (can_send_message rl t cid).1 = max_per_hour rl
  /\ max_per_channel_per_hour (can_send_message rl t cid).1
     = max_per_channel_per_hour rl.
Proof.
  unfold can_send_message.
  destruct (_ >=? max_per_hour rl); [done|].
  destruct cid as [c|]; [|done].
  by destruct (_ >=? max_per_channel_per_hour rl).
Qed.

(** After a check the queue of a channel is either untouched or
    cleaned. *)
Lemma can_send_message_channel (rl : RateLimiter) (t : Z) (cid : option Z) (c : Z) :
  channel_queue (can_send_message rl t cid).1 c = channel_queue rl c
  \/ (cid = Some c
      /\ channel_queue (can_send_message rl t cid).1 c
         = _cleanup_old_messages (channel_queue rl c) t).
Proof.
  unfold can_send_message.
  destruct (_ >=? max_per_hour rl); [by left|].
  destruct cid as [c'|]; [|by left].
  assert (Hq : channel_queue
                 {| max_per_hour := max_per_hour rl;
                    max_per_channel_per_hour := max_per_channel_per_hour rl;
                    global_messages := _cleanup_old_messages (global_messages rl) t;
                    channel_messages :=
                      <[c' := _cleanup_old_messages (channel_queue rl c') t]>
                        (channel_messages rl) |} c
               = if decide (c' = c)
                 then _cleanup_old_messages (channel_queue rl c') t
                 else channel_queue rl c).
  { unfold channel_queue at 1. cbn [channel_messages].
    rewrite lookup_insert. by destruct (decide (c' = c)). }
  destruct (_ >=? max_per_channel_per_hour rl); cbn [fst]; rewrite Hq;
    destruct (decide (c' = c)) as [->|]; auto.
Qed.

Lemma can_send_message_channel_suffix (rl : RateLimiter) (t : Z) (cid : option Z) (c : Z) :
  channel_queue (can_send_message rl t cid).1 c `suffix_of` channel_queue rl c.
Proof.
  destruct (can_send_message_channel rl t cid c) as [->|[_ ->]];
    [done | apply cleanup_suffix].
Qed.

Lemma can_send_message_no_channel (rl : RateLimiter) (t : Z) :
  can_send_message rl t None
  = ({| max_per_hour := max_per_hour rl;
        max_per_channel_per_hour := max_per_channel_per_hour rl;
        global_messages := _cleanup_old_messages (global_messages rl) t;
        channel_messages := channel_messages rl |},
     negb (len (_cleanup_old_messages (global_messages rl) t) >=? max_per_hour rl)).
Proof.
  unfold can_send_message. by destruct (_ >=? max_per_hour rl).
Qed.

(** ** telegram_client.py: failure and success of a call *)

Section Outcomes.
Context {U : Unicode}.

(** A call that returns true went through [record_forward]. *)
Lemma process_message_true (self self' : TeleScoutClient) (E : Env)
    (m : Message) (h : bool) (events : list Event) :
  _process_message self E m h = (self', true, events) ->
  (dedup_id_of m ∉ _forwarded_messages self)
  /\ (can_send_message (rate_limiter self) (time_check E)
        (channel_id_of (peer_id m))).2 = true
  /\ too_soon self E (channel_id_of (peer_id m)) = false
  /\ self' = record_forward self (limiter_after_check self E m) E
               (channel_id_of (peer_id m)) (dedup_id_of m)
  /\ exists evs, _forward_message self E m h = (evs, Return tt)
       /\ events = EvForward m h
                   :: (evs ++ (if on_message_forwarded self then [EvCallback] else [])).
Proof.
  intros Heq.
  destruct (process_message_cases self E m h)
    as [Heq'|[(_ & _ & Heq')|(body & _ & _ & _ & Hnin & Hal & Hsoon & Heq')]];
    rewrite Heq' in Heq; try discriminate Heq.
  destruct (_forward_message self E m h) as [evs [[]|[seconds|]]];
    try discriminate Heq.
  injection Heq as <- <-. repeat (split; [done|]). by exists evs.
Qed.

(** A call that returns false leaves the client as it was, but for
    the cleaning of the limiter's queues. *)
Lemma process_message_false (self self' : TeleScoutClient) (E : Env)
    (m : Message) (h : bool) (events : list Event) :
  _process_message self E m h = (self', false, events) ->
  self' = self \/ self' = set_rate_limiter self (limiter_after_check self E m).
Proof.
  intros Heq.
  destruct (process_message_cases self E m h)
    as [Heq'|[(_ & _ & Heq')|(body & _ & _ & _ & Hnin & Hal & Hsoon & Heq')]];
    rewrite Heq' in Heq.
  - left. congruence.
  - right. unfold limiter_after_check. congruence.
  - right. unfold limiter_after_check.
    destruct (_forward_message self E m h) as [evs [[]|[seconds|]]];
      congruence.
Qed.

(** C3. If the send of the platform raises a flood wait of [d]
    seconds, [_process_message] returns false after one send and a
    sleep of [d] seconds, without a second send; the set of forwarded
    keys and the times of the last forwards are what they were, and
    the rate limiter has recorded nothing: its queues are what they
    were, but for the expired entries that the check before the
    forward removed. *)
Theorem flood_wait_atomicity (self : TeleScoutClient) (E : Env)
    (m : Message) (h : bool) (sent : pystr) (d : Z) :
  EvSend sent ∈ events_of self E m h ->
  send_reply E = Raise (FloodWaitError d) ->
  flood_wait_spec self E m h sent d.
Proof.
  intros Hin Hsend. unfold flood_wait_spec.
  destruct (process_send_text self E m h sent Hin)
    as (body & channel & Htext & Hent & Hsent).
  unfold events_of in Hin.
  destruct (process_message_cases self E m h)
    as [Heq|[(_ & _ & Heq)|(body' & _ & _ & _ & Hnin & Hal & Hsoon & Heq)]];
    rewrite Heq in *; simpl in Hin; try (by apply elem_of_nil in Hin).
  clear Hin. rewrite forward_message_unfold, Hent, Htext, Hsend.
  split; [done|]. split; [by rewrite Hsent|]. split; [done|].
  split; [done|]. split; [done|]. cbn [rate_limiter set_rate_limiter]. split.
  - rewrite can_send_message_global. apply cleanup_suffix.
  - intros c. apply can_send_message_channel_suffix.
Qed.

End Outcomes.

Lemma flood_wait_atomicity_witness :
  let self := TeleScoutClient_init (U := ascii_unicode) example_config in
  let sent := full_message_of (U := ascii_unicode) self news long_message false long_body in
  EvSend sent ∈ events_of (U := ascii_unicode) self (flood_env 100 2) long_message false
  /\ send_reply (flood_env 100 2) = Raise (FloodWaitError 2)
  /\ flood_wait_spec (U := ascii_unicode) self (flood_env 100 2) long_message false sent 2.
Proof.
  intros self sent.
  assert (H : EvSend sent ∈
                events_of (U := ascii_unicode) self (flood_env 100 2) long_message false).
  { apply list_elem_of_In. vm_compute. tauto. }
  split; [exact H|]. split; [reflexivity|].
  exact (flood_wait_atomicity (U := ascii_unicode) self (flood_env 100 2)
           long_message false sent 2 H eq_refl).
Defined.

(** ** telegram_client.py: the set of forwarded keys *)

Lemma limit_tracked_below (E : Env) (max_tracked : Z) (forwarded : gset ForwardKey) :
  len (elements forwarded) <= max_tracked ->
  limit_tracked E max_tracked forwarded = forwarded.
Proof.
  intros H. unfold limit_tracked.
  rewrite Z.gtb_ltb. destruct (Z.ltb_spec max_tracked (len (elements forwarded))); [lia|done].
Qed.

Lemma len_elements_insert (key : ForwardKey) (forwarded : gset ForwardKey) :
  key ∉ forwarded ->
  len (elements ({[key]} ∪ forwarded)) = 1 + len (elements forwarded).
Proof.
  intros Hnin. unfold len.
  change (length (elements ({[key]} ∪ forwarded))) with (size ({[key]} ∪ forwarded)).
  change (length (elements forwarded)) with (size forwarded).
  rewrite size_union by set_solver. rewrite size_singleton. lia.
Qed.

Section NoChannel.
Context {U : Unicode}.




End NoChannel.


(** ** A session: forwarding at most once *)

Lemma forward_count_cons (key : ForwardKey) (o : Outcome) (outs : list Outcome) :
  forward_count key (o :: outs)
  = (length (List.filter (is_forward_of key) (out_events o))
     + forward_count key outs)%nat.
Proof.
  unfold forward_count. rewrite fmap_cons. cbn [concat].
  by rewrite List.filter_app, length_app.
Qed.

Lemma forwarded_keys_cons (o : Outcome) (outs : list Outcome) :
  forwarded_keys (o :: outs)
  = if out_result o then out_key o :: forwarded_keys outs else forwarded_keys outs.
Proof. unfold forwarded_keys. simpl. by destruct (out_result o). Qed.

Section AtMostOnce.
Context {U : Unicode}.

(** The forwarder is only ever called for the message at hand, and
    only if its key is not remembered. *)
Lemma process_events_forward (self : TeleScoutClient) (E : Env)
    (m : Message) (h : bool) (key : ForwardKey) :
  dedup_id_of m <> key \/ key ∈ _forwarded_messages self ->
  List.filter (is_forward_of key) (events_of self E m h) = [].
Proof.
  intros Hkey. unfold events_of.
  destruct (process_message_cases self E m h)
    as [Heq|[(_ & _ & Heq)|(body & Htext & _ & _ & Hnin & _ & _ & Heq)]];
    rewrite Heq; [done..|].
  assert (Hne : dedup_id_of m <> key).
  { destruct Hkey as [?|Hin]; [done|]. intros Heq'. apply Hnin.
    cbv zeta. by rewrite Heq'. }
  rewrite forward_message_unfold, Htext.
  assert (Hb : bool_decide (dedup_id_of m = key) = false)
    by by apply bool_decide_eq_false.
  destruct (get_entity_reply E) as [channel|[seconds|]];
    [destruct (send_reply E) as [[]|[seconds|]];
       [destruct (on_message_forwarded self)| |] | |];
    simpl; by rewrite Hb.
Qed.

Lemma process_stream_cons (self : TeleScoutClient) (c : Call) (calls : list Call) :
  process_stream self (c :: calls) =
    let r := _process_message self (call_env c) (call_message c) (call_historical c) in
    ((process_stream r.1.1 calls).1,
     {| out_call := c; out_result := r.1.2; out_events := r.2 |}
     :: (process_stream r.1.1 calls).2).
Proof.
  simpl.
  destruct (_process_message self (call_env c) (call_message c) (call_historical c))
    as [[self' r] evs].
  cbn [fst snd]. by destruct (process_stream self' calls).
Qed.

Lemma record_forward_max (self : TeleScoutClient) rl E cid key :
  _max_tracked_messages (record_forward self rl E cid key) = _max_tracked_messages self.
Proof. reflexivity. Qed.

(** While the set does not outgrow its capacity, the keys forwarded
    with success are new, pairwise distinct, and never handed to the
    forwarder again. *)
Lemma process_stream_at_most_once (calls : list Call) (self : TeleScoutClient) :
  let outs := (process_stream self calls).2 in
  len (elements (_forwarded_messages self)) + len (forwarded_keys outs)
    <= _max_tracked_messages self ->
  at_most_once_spec outs
  /\ (forall key, key ∈ forwarded_keys outs -> key ∉ _forwarded_messages self)
  /\ (forall key, key ∈ _forwarded_messages self -> forward_count key outs = 0%nat).
Proof.
  revert self. induction calls as [|c calls IH]; intros self outs Hcap.
  { subst outs. simpl. repeat split.
    - constructor.
    - intros [|??] ?? Heq; discriminate Heq.
    - intros key Hin. by apply elem_of_nil in Hin. }
  subst outs. rewrite process_stream_cons in Hcap |- *. cbv zeta in Hcap |- *.
  cbn [snd] in Hcap |- *.
  set (m := call_message c) in *. set (E := call_env c) in *.
  set (h := call_historical c) in *.
  destruct (_process_message self E m h) as [[self' r] evs] eqn:Hproc.
  cbn [fst snd] in Hcap |- *.
  set (o := {| out_call := c; out_result := r; out_events := evs |}) in *.
  assert (Hevs : forall key, dedup_id_of m <> key \/ key ∈ _forwarded_messages self ->
                   List.filter (is_forward_of key) evs = []).
  { intros key Hkey. pose proof (process_events_forward self E m h key Hkey) as H.
    unfold events_of in H. by rewrite Hproc in H. }
  rewrite forwarded_keys_cons in Hcap. cbn [out_result o] in Hcap.
  destruct r.
  - (* the message was forwarded *)
    destruct (process_message_true self self' E m h evs Hproc)
      as (Hnin & _ & _ & Hself' & _).
    change (out_key o) with (dedup_id_of m) in Hcap.
    assert (Hlen : len (dedup_id_of m :: forwarded_keys (process_stream self' calls).2)
                   = 1 + len (forwarded_keys (process_stream self' calls).2)).
    { unfold len. simpl length. lia. }
    rewrite Hlen in Hcap.
    pose proof (len_nonneg (forwarded_keys (process_stream self' calls).2)) as Hnn.
    assert (Hfw : _forwarded_messages self' = {[dedup_id_of m]} ∪ _forwarded_messages self).
    { rewrite Hself'. cbn [_forwarded_messages record_forward].
      apply limit_tracked_below. rewrite len_elements_insert by done. lia. }
    assert (Hmax : _max_tracked_messages self' = _max_tracked_messages self)
      by by rewrite Hself'.
    destruct (IH self') as ((Hnd & Hsplit) & Hnew & Hold).
    { rewrite Hfw, Hmax, len_elements_insert by done. lia. }
    repeat split.
    + rewrite forwarded_keys_cons. cbn [out_result o].
      change (out_key o) with (dedup_id_of m).
      constructor; [|done]. intros Hin. apply (Hnew _ Hin). rewrite Hfw.
      apply elem_of_union_l. by apply elem_of_singleton.
    + intros pre o' post Heq Hres. destruct pre as [|o1 pre].
      * injection Heq as <- <-. change (out_key o) with (dedup_id_of m).
        apply Hold. rewrite Hfw. apply elem_of_union_l. by apply elem_of_singleton.
      * injection Heq as _ Heq. by apply (Hsplit pre o' post).
    + intros key. rewrite forwarded_keys_cons. cbn [out_result o].
      change (out_key o) with (dedup_id_of m).
      intros [->|Hin]%elem_of_cons; [done|].
      intros Hin'. apply (Hnew _ Hin). rewrite Hfw. by apply elem_of_union_r.
    + intros key Hin. rewrite forward_count_cons. cbn [out_events o].
      rewrite Hevs by by right. simpl.
      apply Hold. rewrite Hfw. by apply elem_of_union_r.
  - (* the message was not forwarded *)
    assert (Hfw : _forwarded_messages self' = _forwarded_messages self
                  /\ _max_tracked_messages self' = _max_tracked_messages self).
    { destruct (process_message_false self self' E m h evs Hproc) as [->| ->]; done. }
    destruct Hfw as [Hfw Hmax].
    destruct (IH self') as ((Hnd & Hsplit) & Hnew & Hold).
    { rewrite Hfw, Hmax. lia. }
    repeat split.
    + by rewrite forwarded_keys_cons.
    + intros pre o' post Heq Hres. destruct pre as [|o1 pre].
      * injection Heq as <- <-. discriminate Hres.
      * injection Heq as _ Heq. by apply (Hsplit pre o' post).
    + intros key. rewrite forwarded_keys_cons. cbn [out_result o].
      intros Hin. rewrite <- Hfw. by apply Hnew.
    + intros key Hin. rewrite forward_count_cons. cbn [out_events o].
      rewrite Hevs by by right. simpl.
      apply Hold. by rewrite Hfw.
Qed.

(** C1, amended. In a session (a stream of messages handed to
    [_process_message] one after the other, starting from a fresh
    client) in which at most 10000 messages are forwarded with
    success, so that the set of forwarded keys is never compacted, a
    message with a given key [(source_id, message_id)] is forwarded
    with success at most once, and once it has been, the forwarder is
    never called again for that key. *)
Theorem at_most_once_forwarding (config : Config) (calls : list Call) :
  let outs := (process_stream (TeleScoutClient_init config) calls).2 in
  len (forwarded_keys outs) <= 10000 ->
  at_most_once_spec outs.
Proof.
  intros outs Hcap.
  apply (process_stream_at_most_once calls (TeleScoutClient_init config)).
  fold outs. cbn [_forwarded_messages _max_tracked_messages TeleScoutClient_init].
  rewrite elements_empty. unfold len at 1. simpl. done.
Qed.

End AtMostOnce.

(** C1, the claim as stated fails: when the first send fails (with an
    error that is not a flood wait) nothing is remembered, and the
    forwarder is called a second time when the message is delivered
    again; one key only has been forwarded. *)
Lemma forwarder_invoked_twice :
  let outs :=
    (process_stream (U := ascii_unicode)
       (TeleScoutClient_init (U := ascii_unicode) example_config)
       replay_after_failure).2 in
  forward_count (dedup_id_of short_message) outs = 2%nat
  /\ out_result <$> outs = [false; true]
  /\ forwarded_keys outs = [(Some 42, 1000)].
Proof. vm_compute. repeat split. Qed.

Lemma at_most_once_forwarding_witness :
  let outs :=
    (process_stream (U := ascii_unicode)
       (TeleScoutClient_init (U := ascii_unicode) example_config) replay).2 in
  len (forwarded_keys outs) <= 10000
  /\ at_most_once_spec outs
  /\ out_result <$> outs = [true; false].
Proof.
  intros outs.
  assert (H : len (forwarded_keys outs) <= 10000) by (vm_compute; congruence).
  split; [exact H|]. split; [|vm_compute; reflexivity].
  exact (at_most_once_forwarding (U := ascii_unicode) example_config replay H).
Defined.

(** ** rate_limiter.py: the sliding windows *)

Lemma window_count_app (T : Z) (l k : list Z) :
  window_count T (l ++ k) = window_count T l + window_count T k.
Proof. unfold window_count. by rewrite List.filter_app, len_app. Qed.

Lemma window_count_nonneg (T : Z) (l : list Z) : 0 <= window_count T l.
Proof. apply len_nonneg. Qed.

Lemma window_count_le (T : Z) (l : list Z) : window_count T l <= len l.
Proof.
  unfold window_count, len. induction l as [|x l IH]; [done|].
  simpl. destruct (in_window T x); simpl; lia.
Qed.

Lemma window_count_old (T t : Z) (l : list Z) :
  Forall (fun x => x < t - 3600) l -> t <= T -> window_count T l = 0.
Proof.
  intros Hold Ht. unfold window_count, len.
  induction Hold as [|x l Hx _ IH]; [done|].
  simpl. unfold in_window at 1.
  destruct (Z.leb_spec (T - 3600) x); [lia|]. exact IH.
Qed.

Lemma window_count_singleton (T r : Z) :
  window_count T [r] = if in_window T r then 1 else 0.
Proof. unfold window_count. simpl. by destruct (in_window T r). Qed.

Lemma filter_all {A} (P : A -> Prop) `{!forall x, Decision (P x)} (l : list A) :
  Forall P l -> filter P l = l.
Proof.
  induction 1 as [|x l Hx _ IH]; [done|].
  rewrite filter_cons. destruct (decide (P x)); [by rewrite IH | done].
Qed.

(** On a queue in which the timestamps do not decrease, the cleaning
    removes exactly the timestamps older than an hour. *)
Lemma cleanup_sorted_filter (q : list Z) (t : Z) :
  StronglySorted Z.le q ->
  _cleanup_old_messages q t = filter (fun x => t - 3600 <= x) q.
Proof.
  induction 1 as [|x q Hq IH Hx]; [done|].
  simpl. rewrite filter_cons.
  destruct (Z.ltb_spec x (t - 3600)); destruct (decide (t - 3600 <= x)); try lia.
  - exact IH.
  - f_equal. symmetry. apply filter_all.
    eapply Forall_impl; [exact Hx|]. simpl. intros; lia.
Qed.

Lemma cleanup_split (q : list Z) (t : Z) :
  exists removed,
    q = removed ++ _cleanup_old_messages q t
    /\ Forall (fun x => x < t - 3600) removed.
Proof.
  induction q as [|x q (removed & Heq & Hold)]; [by exists []|].
  simpl. destruct (Z.ltb_spec x (t - 3600)).
  - exists (x :: removed). split; [simpl; by f_equal|by constructor].
  - by exists [].
Qed.

Lemma cleanup_recent (q : list Z) (t : Z) :
  StronglySorted Z.le q ->
  Forall (fun x => t - 3600 <= x) (_cleanup_old_messages q t).
Proof.
  intros Hs. rewrite (cleanup_sorted_filter q t Hs).
  apply Forall_forall. by intros x [Hx _]%list_elem_of_filter.
Qed.

Lemma window_inv_init (limit L : Z) : 0 <= limit -> window_inv limit L [] [].
Proof.
  intros Hl. exists []. repeat split; try constructor. by intros T.
Qed.

Lemma window_inv_mono (limit L L' : Z) (history queue : list Z) :
  L <= L' -> window_inv limit L history queue -> window_inv limit L' history queue.
Proof.
  intros HL (removed & Heq & Hold & Hs & Hle & Hw).
  exists removed. repeat split; try done.
  - eapply Forall_impl; [exact Hold|]. simpl. intros; lia.
  - eapply Forall_impl; [exact Hle|]. simpl. intros; lia.
Qed.

Lemma window_inv_cleanup (limit L t : Z) (history queue : list Z) :
  L <= t -> window_inv limit L history queue ->
  window_inv limit t history (_cleanup_old_messages queue t)
  /\ Forall (fun x => t - 3600 <= x) (_cleanup_old_messages queue t).
Proof.
  intros HL (removed & Heq & Hold & Hs & Hle & Hw).
  split; [|by apply cleanup_recent].
  destruct (cleanup_split queue t) as (removed' & Hq & Hold').
  assert (Hsuf : _cleanup_old_messages queue t `suffix_of` queue)
    by apply cleanup_suffix.
  exists (removed ++ removed'). repeat split; try done.
  - rewrite <- app_assoc, <- Hq. exact Heq.
  - apply Forall_app. split; [|done].
    eapply Forall_impl; [exact Hold|]. simpl. intros; lia.
  - rewrite Hq in Hs. by apply StronglySorted_app_1_r in Hs.
  - rewrite Hq in Hle. apply Forall_app in Hle as [_ Hle].
    eapply Forall_impl; [exact Hle|]. simpl. intros; lia.
Qed.

Lemma window_inv_record (limit t r : Z) (history queue : list Z) :
  window_inv limit t history queue ->
  Forall (fun x => t - 3600 <= x) queue ->
  len queue < limit -> t <= r ->
  window_inv limit r (history ++ [r]) (queue ++ [r]).
Proof.
  intros (removed & Heq & Hold & Hs & Hle & Hw) Hrecent Hlen Hr.
  exists removed. repeat split.
  - by rewrite Heq, app_assoc.
  - eapply Forall_impl; [exact Hold|]. simpl. intros; lia.
  - apply StronglySorted_app_2; [|done|repeat constructor].
    intros x y Hx Hy%list_elem_of_singleton. subst y.
    rewrite Forall_forall in Hle. specialize (Hle x Hx). lia.
  - apply Forall_app. split.
    + eapply Forall_impl; [exact Hle|]. simpl. intros; lia.
    + repeat constructor. lia.
  - intros T. rewrite window_count_app, window_count_singleton.
    destruct (in_window T r) eqn:Hin; [|specialize (Hw T); lia].
    unfold in_window in Hin. apply andb_true_iff in Hin as [H1 H2].
    apply Z.leb_le in H1, H2.
    rewrite Heq, window_count_app.
    rewrite (window_count_old T (r - 3600 + 3600) removed); [|
      eapply Forall_impl; [exact Hold|]; simpl; intros; lia | lia].
    pose proof (window_count_le T queue). lia.
Qed.

Lemma can_send_spec_holds (rl : RateLimiter) (t : Z) (cid : option Z) :
  can_send_spec rl t cid.
Proof.
  unfold can_send_spec. cbv zeta.
  split; [|split; [|split; [|split; [|split; [|split; [|split]]]]]].
  - unfold can_send_message.
    destruct (_ >=? max_per_hour rl); [done|].
    destruct cid as [c|]; [|done].
    by destruct (_ >=? max_per_channel_per_hour rl).
  - apply can_send_message_global.
  - intros c -> Hlen. unfold can_send_message.
    rewrite Z.geb_leb.
    destruct (Z.leb_spec (max_per_hour rl)
                (len (_cleanup_old_messages (global_messages rl) t))); [lia|].
    destruct (_ >=? max_per_channel_per_hour rl); cbn [fst];
      unfold channel_queue at 1; cbn [channel_messages];
      by rewrite lookup_insert_eq.
  - apply cleanup_sorted_filter.
  - intros c. apply cleanup_sorted_filter.
  - intros Hfull. unfold can_send_message.
    rewrite Z.geb_leb.
    by destruct (Z.leb_spec (max_per_hour rl)
                   (len (_cleanup_old_messages (global_messages rl) t))); [|lia].
  - intros ->. unfold can_send_message. by destruct (_ >=? max_per_hour rl).
  - intros c Hne.
    destruct (can_send_message_channel rl t cid c) as [Heq|[Heq _]]; done.
Qed.

(** When the check allows the send, the cleaned windows are below
    their limits. *)
Lemma can_send_allowed (rl : RateLimiter) (t : Z) (cid : option Z) :
  (can_send_message rl t cid).2 = true ->
  len (_cleanup_old_messages (global_messages rl) t) < max_per_hour rl
  /\ forall c, cid = Some c ->
       channel_queue (can_send_message rl t cid).1 c
       = _cleanup_old_messages (channel_queue rl c) t
       /\ len (_cleanup_old_messages (channel_queue rl c) t)
          < max_per_channel_per_hour rl.
Proof.
  destruct (can_send_spec_holds rl t cid) as (Hres & _ & Hq & _).
  rewrite Hres. intros [Hg Hc]%andb_true_iff.
  apply negb_true_iff in Hg. rewrite Z.geb_leb in Hg. apply Z.leb_gt in Hg.
  split; [done|]. intros c ->. split; [by apply Hq|].
  apply negb_true_iff in Hc. rewrite Z.geb_leb in Hc. by apply Z.leb_gt in Hc.
Qed.

Lemma record_message_channel (rl : RateLimiter) (r : Z) (cid : option Z) (c : Z) :
  channel_queue (record_message rl r cid) c
  = if bool_decide (cid = Some c) then channel_queue rl c ++ [r]
    else channel_queue rl c.
Proof.
  unfold record_message, channel_queue at 1. cbn [channel_messages].
  destruct cid as [c'|].
  - rewrite lookup_insert. destruct (decide (c' = c)) as [->|Hne].
    + by rewrite bool_decide_eq_true_2.
    + rewrite bool_decide_eq_false_2 by congruence. done.
  - by rewrite bool_decide_eq_false_2.
Qed.

Lemma limiter_inv_mono (rl : RateLimiter) (L L' : Z) hg hc :
  L <= L' -> limiter_inv rl L hg hc -> limiter_inv rl L' hg hc.
Proof.
  intros HL [Hg Hc]. split; [by eapply window_inv_mono|].
  intros c. by eapply window_inv_mono.
Qed.

Lemma limiter_inv_check (rl : RateLimiter) (L t : Z) (cid : option Z) hg hc :
  L <= t -> limiter_inv rl L hg hc ->
  limiter_inv (can_send_message rl t cid).1 t hg hc.
Proof.
  intros HL [Hg Hc].
  destruct (can_send_message_limits rl t cid) as [Hmax Hmaxc].
  split.
  - rewrite Hmax, can_send_message_global. by apply (window_inv_cleanup _ L).
  - intros c. rewrite Hmaxc.
    destruct (can_send_message_channel rl t cid c) as [->|[_ ->]].
    + by apply (window_inv_mono _ L).
    + by apply (window_inv_cleanup _ L).
Qed.

Lemma limiter_inv_record (rl : RateLimiter) (L t r : Z) (cid : option Z) hg hc :
  L <= t -> t <= r -> limiter_inv rl L hg hc ->
  (can_send_message rl t cid).2 = true ->
  limiter_inv (record_message (can_send_message rl t cid).1 r cid) r
    (hg ++ [r])
    (fun c => if bool_decide (cid = Some c) then hc c ++ [r] else hc c).
Proof.
  intros HL Hr [Hg Hc] Hallowed.
  destruct (can_send_message_limits rl t cid) as [Hmax Hmaxc].
  destruct (can_send_allowed rl t cid Hallowed) as [Hlen Hchan].
  split.
  - cbn [max_per_hour global_messages record_message].
    rewrite Hmax, can_send_message_global.
    destruct (window_inv_cleanup _ L t hg _ HL Hg) as [Hinv Hrecent].
    by apply (window_inv_record _ t).
  - intros c. cbn [max_per_channel_per_hour record_message].
    rewrite Hmaxc, record_message_channel.
    case_bool_decide as Hcid.
    + destruct (Hchan c Hcid) as [-> Hlenc].
      destruct (window_inv_cleanup _ L t (hc c) _ HL (Hc c)) as [Hinv Hrecent].
      by apply (window_inv_record _ t).
    + destruct (can_send_message_channel rl t cid c) as [->|[? _]]; [|done].
      apply (window_inv_mono _ L); [lia|done].
Qed.

Lemma record_times_cons (o : Outcome) (outs : list Outcome) :
  record_times (o :: outs)
  = if out_result o then record_time o :: record_times outs else record_times outs.
Proof. unfold record_times. simpl. by destruct (out_result o). Qed.

Lemma channel_record_times_cons (c : Z) (o : Outcome) (outs : list Outcome) :
  channel_record_times c (o :: outs)
  = if from_channel c o then record_time o :: channel_record_times c outs
    else channel_record_times c outs.
Proof. unfold channel_record_times. simpl. by destruct (from_channel c o). Qed.

Section RateLimit.
Context {U : Unicode}.

(** The quotas hold over a whole session, whatever the limiter has
    recorded before, as long as the clock does not go backwards. *)
Lemma process_stream_windows (calls : list Call) :
  forall (self : TeleScoutClient) (L : Z) (hg : list Z) (hc : Z -> list Z),
    limiter_inv (rate_limiter self) L hg hc ->
    clock_from L calls ->
    let outs := (process_stream self calls).2 in
    forall T,
      window_count T (hg ++ record_times outs) <= max_per_hour (rate_limiter self)
      /\ forall c, window_count T (hc c ++ channel_record_times c outs)
                   <= max_per_channel_per_hour (rate_limiter self).
Proof.
  induction calls as [|c calls IH]; intros self L hg hc Hinv Hclock outs T.
  { subst outs. simpl. destruct Hinv as [Hg Hc].
    split.
    - rewrite app_nil_r. by destruct Hg as (? & _ & _ & _ & _ & Hw).
    - intros c. rewrite app_nil_r.
      by destruct (Hc c) as (? & _ & _ & _ & _ & Hw). }
  subst outs. rewrite process_stream_cons. cbv zeta. cbn [snd].
  destruct Hclock as (Hcheck & Hrecord & Hclock).
  set (m := call_message c) in *. set (E := call_env c) in *.
  set (h := call_historical c) in *.
  destruct (_process_message self E m h) as [[self' r] evs] eqn:Hproc.
  cbn [fst snd].
  set (o := {| out_call := c; out_result := r; out_events := evs |}).
  rewrite record_times_cons. cbn [out_result o].
  destruct r.
  - (* forwarded: the limiter has recorded the instant *)
    destruct (process_message_true self self' E m h evs Hproc)
      as (_ & Hallowed & _ & Hself' & _).
    set (cid := channel_id_of (peer_id m)) in *.
    assert (Hinv' : limiter_inv (rate_limiter self') (time_record E)
                      (hg ++ [time_record E])
                      (fun c0 => if bool_decide (cid = Some c0)
                                 then hc c0 ++ [time_record E] else hc c0)).
    { rewrite Hself'. cbn [rate_limiter record_forward].
      unfold limiter_after_check. fold cid.
      by apply (limiter_inv_record _ L). }
    assert (Hlim : max_per_hour (rate_limiter self') = max_per_hour (rate_limiter self)
                   /\ max_per_channel_per_hour (rate_limiter self')
                      = max_per_channel_per_hour (rate_limiter self)).
    { rewrite Hself'. cbn [rate_limiter record_forward record_message
                             max_per_hour max_per_channel_per_hour].
      apply can_send_message_limits. }
    destruct Hlim as [Hmax Hmaxc].
    destruct (IH self' _ _ _ Hinv' Hclock T) as [Hg Hc].
    rewrite Hmax in Hg. rewrite Hmaxc in Hc.
    change (record_time o) with (time_record E).
    split.
    + by rewrite <- app_assoc in Hg.
    + intros c0. specialize (Hc c0). rewrite channel_record_times_cons.
      unfold from_channel. cbn [out_result out_call o andb].
      fold m. fold cid.
      change (record_time o) with (time_record E).
      destruct (bool_decide (cid = Some c0)); [by rewrite <- app_assoc in Hc|done].
  - (* not forwarded: the limiter has at most been cleaned *)
    assert (Hinv' : limiter_inv (rate_limiter self') (time_record E) hg hc
                    /\ max_per_hour (rate_limiter self')
                       = max_per_hour (rate_limiter self)
                    /\ max_per_channel_per_hour (rate_limiter self')
                       = max_per_channel_per_hour (rate_limiter self)).
    { destruct (process_message_false self self' E m h evs Hproc) as [->| ->].
      - split; [|done]. apply (limiter_inv_mono _ L); [lia|done].
      - cbn [rate_limiter set_rate_limiter]. unfold limiter_after_check.
        split; [|apply can_send_message_limits].
        apply (limiter_inv_mono _ (time_check E)); [done|].
        by apply (limiter_inv_check _ L). }
    destruct Hinv' as (Hinv' & Hmax & Hmaxc).
    destruct (IH self' _ _ _ Hinv' Hclock T) as [Hg Hc].
    rewrite Hmax in Hg. rewrite Hmaxc in Hc.
    split; [done|].
    intros c0. rewrite channel_record_times_cons.
    unfold from_channel. cbn [out_result o andb]. apply Hc.
Qed.

(** C2, as amended. [can_send_message] cleans the global window and
    answers false when the cleaned window holds [max_per_hour]
    timestamps or more, and then no window of a source is cleaned or
    read; otherwise, for a source that has a channel id, it cleans
    the window of that channel (and no other) and answers false when
    it holds [max_per_channel_per_hour] timestamps or more; else it
    answers true. A source without a channel id has no window of its
    own: the check touches no window of a source. On windows in
    which time does not decrease the cleaning removes exactly the
    timestamps older than 3600 seconds. Consequently, in a session
    whose clock does not go backwards and with limits that are not
    negative, every window of 3600 seconds holds at most
    [max_messages_per_hour] successful forwards, and at most
    [max_messages_per_channel_per_hour] from any one channel id; the
    forwards from sources without a channel id are bounded by the
    global limit only. *)
Theorem rate_limit_enforcement (config : Config) (calls : list Call) (t0 : Z) :
  0 <= max_messages_per_hour config ->
  0 <= max_messages_per_channel_per_hour config ->
  clock_from t0 calls ->
  (forall rl t cid, can_send_spec rl t cid)
  /\ rate_limit_spec config (process_stream (TeleScoutClient_init config) calls).2.
Proof.
  intros Hmax Hmaxc Hclock. split; [apply can_send_spec_holds|].
  intros T.
  assert (Hinv : limiter_inv (rate_limiter (TeleScoutClient_init config)) t0
                   [] (fun _ => [])).
  { split; [by apply window_inv_init|].
    intros c. unfold channel_queue. cbn. rewrite lookup_empty.
    by apply window_inv_init. }
  exact (process_stream_windows calls (TeleScoutClient_init config) t0 []
           (fun _ => []) Hinv Hclock T).
Qed.

End RateLimit.

Example global_cap_example :
  out_result <$>
    (process_stream (U := ascii_unicode)
       (TeleScoutClient_init (U := ascii_unicode) tight_config) burst).2
  = [true; true; true; false].
Proof. vm_compute. reflexivity. Qed.

(** C2, the claim as stated fails. Five messages of one small group,
    which has no channel id, are all forwarded within one second
    although the limit per source is one an hour; and a check that is
    refused by the global limit leaves the expired timestamp in the
    window of the channel, which a pruning of both windows would have
    removed. *)
Lemma per_source_quota_exceeded :
  let outs :=
    (process_stream (U := ascii_unicode)
       (TeleScoutClient_init (U := ascii_unicode) chat_config) chat_burst).2 in
  out_result <$> outs = [true; true; true; true; true]
  /\ max_messages_per_channel_per_hour chat_config = 1
  /\ window_count 100 (peer_record_times (PeerChat 9) outs) = 5
  /\ ~ per_source_quota_spec chat_config outs
  /\ (can_send_message stale_limiter 3700 (Some 42)).2 = false
  /\ channel_queue (can_send_message stale_limiter 3700 (Some 42)).1 42 = [0]
  /\ _cleanup_old_messages (channel_queue stale_limiter 42) 3700 = [].
Proof.
  intros outs.
  assert (Hcount : window_count 100 (peer_record_times (PeerChat 9) outs) = 5)
    by (vm_compute; reflexivity).
  split; [vm_compute; reflexivity|]. split; [reflexivity|]. split; [exact Hcount|].
  split; [|vm_compute; repeat split].
  intros Hspec. specialize (Hspec 100 (PeerChat 9)).
  rewrite Hcount in Hspec. simpl in Hspec. lia.
Qed.

Lemma rate_limit_enforcement_witness :
  0 <= max_messages_per_hour tight_config
  /\ 0 <= max_messages_per_channel_per_hour tight_config
  /\ clock_from 0 burst
  /\ (forall rl t cid, can_send_spec rl t cid)
  /\ rate_limit_spec tight_config
       (process_stream (U := ascii_unicode)
          (TeleScoutClient_init (U := ascii_unicode) tight_config) burst).2.
Proof.
  assert (H1 : 0 <= max_messages_per_hour tight_config) by (simpl; lia).
  assert (H2 : 0 <= max_messages_per_channel_per_hour tight_config) by (simpl; lia).
  assert (H3 : clock_from 0 burst) by (simpl; lia).
  split; [exact H1|]. split; [exact H2|]. split; [exact H3|].
  exact (rate_limit_enforcement (U := ascii_unicode) tight_config burst 0 H1 H2 H3).
Defined.

(** ** telegram_client.py: the compaction of the set of forwarded keys *)

Lemma admissible_NoDup (E : Env) (s : gset ForwardKey) :
  admissible E -> NoDup (listing E s) /\ length (listing E s) = size s.
Proof.
  intros Hadm. split.
  - rewrite (Hadm s). apply NoDup_elements.
  - by rewrite (Hadm s).
Qed.

Lemma admissible_elem_of (E : Env) (s : gset ForwardKey) (key : ForwardKey) :
  admissible E -> key ∈ listing E s <-> key ∈ s.
Proof. intros Hadm. rewrite (Hadm s). apply elem_of_elements. Qed.

(** With the capacity of 10000, the compaction keeps the last 5000
    keys of the enumeration of the set. *)
Lemma limit_tracked_compacts (E : Env) (forwarded : gset ForwardKey) :
  len (elements forwarded) > 10000 ->
  limit_tracked E 10000 forwarded
  = list_to_set (drop (length (listing E forwarded) - Z.to_nat 5000)
                   (listing E forwarded)).
Proof.
  intros Hlen. unfold limit_tracked.
  rewrite Z.gtb_ltb. destruct (Z.ltb_spec 10000 (len (elements forwarded))); [|lia].
  unfold slice_from. change (- (10000) / 2) with (-5000). cbn [Z.ltb Z.compare].
  do 2 f_equal. unfold len. lia.
Qed.

Lemma limit_tracked_subseteq (E : Env) (max_tracked : Z) (forwarded : gset ForwardKey) :
  admissible E -> limit_tracked E max_tracked forwarded ⊆ forwarded.
Proof.
  intros Hadm. unfold limit_tracked.
  destruct (_ >? max_tracked); [|done].
  intros key Hin. apply elem_of_list_to_set in Hin.
  unfold slice_from in Hin. apply subseteq_drop in Hin.
  by apply (admissible_elem_of E).
Qed.

Lemma len_elements_list_to_set (l : list ForwardKey) :
  NoDup l -> len (elements (list_to_set l : gset ForwardKey)) = len l.
Proof.
  intros Hnd. unfold len.
  change (length (elements (list_to_set l : gset ForwardKey)))
    with (size (list_to_set l : gset ForwardKey)).
  by rewrite size_list_to_set.
Qed.

Lemma limit_tracked_size (E : Env) (forwarded : gset ForwardKey) :
  admissible E ->
  len (elements forwarded) > 10000 ->
  len (elements (limit_tracked E 10000 forwarded)) = 5000.
Proof.
  intros Hadm Hlen. rewrite limit_tracked_compacts by done.
  destruct (admissible_NoDup E forwarded Hadm) as [Hnd Hsize].
  rewrite len_elements_list_to_set
    by (eapply sublist_NoDup; [exact Hnd | apply sublist_drop]).
  unfold len in *. rewrite length_drop.
  change (length (elements forwarded)) with (size forwarded) in Hlen. lia.
Qed.

Section Capacity.
Context {U : Unicode}.

(** The part of the claim that holds: whatever the enumeration, a
    call leaves at most 10000 keys in the set, and a call that finds
    10000 keys and adds one leaves 5000, all of which were in the set
    or are the new key. *)
Lemma forwarded_bounded (self self' : TeleScoutClient) (E : Env)
    (m : Message) (h : bool) (r : bool) (events : list Event) :
  admissible E ->
  _max_tracked_messages self = 10000 ->
  len (elements (_forwarded_messages self)) <= 10000 ->
  _process_message self E m h = (self', r, events) ->
  _max_tracked_messages self' = 10000
  /\ len (elements (_forwarded_messages self')) <= 10000
  /\ _forwarded_messages self' ⊆ {[dedup_id_of m]} ∪ _forwarded_messages self
  /\ (len (elements (_forwarded_messages self)) = 10000 -> r = true ->
      len (elements (_forwarded_messages self')) = 5000).
Proof.
  intros Hadm Hmax Hsize Hproc. destruct r.
  - destruct (process_message_true self self' E m h events Hproc)
      as (Hnin & _ & _ & -> & _).
    cbn [_forwarded_messages _max_tracked_messages record_forward].
    rewrite Hmax.
    pose proof (len_elements_insert _ _ Hnin) as Hlen.
    split; [done|]. split; [|split].
    + destruct (decide (len (elements (_forwarded_messages self)) = 10000))
        as [Hfull|Hless].
      * rewrite limit_tracked_size; [lia|done|lia].
      * rewrite limit_tracked_below; lia.
    + by apply limit_tracked_subseteq.
    + intros Hfull _. apply limit_tracked_size; [done|lia].
  - assert (Hsame : _forwarded_messages self' = _forwarded_messages self
                    /\ _max_tracked_messages self' = _max_tracked_messages self).
    { destruct (process_message_false self self' E m h events Hproc) as [->| ->]; done. }
    destruct Hsame as [-> ->]. split; [done|]. split; [done|].
    split; [apply union_subseteq_r|]. intros _ Hr. discriminate Hr.
Qed.

(** A message that passes every gate and is sent is recorded. *)
Lemma process_message_forwarded (self : TeleScoutClient) (E : Env)
    (m : Message) (h : bool) (body : pystr) (channel : Entity) :
  text m = Some body -> body <> [] ->
  has_match (keyword_matcher self) body = true ->
  dedup_id_of m ∉ _forwarded_messages self ->
  (can_send_message (rate_limiter self) (time_check E)
     (channel_id_of (peer_id m))).2 = true ->
  too_soon self E (channel_id_of (peer_id m)) = false ->
  get_entity_reply E = Return channel ->
  send_reply E = Return tt ->
  (_process_message self E m h).1
  = (record_forward self (limiter_after_check self E m) E
       (channel_id_of (peer_id m)) (dedup_id_of m), true).
Proof.
  intros Htext Hbody Hmatch Hnin Hallowed Hsoon Hent Hsend.
  destruct (process_message_cases self E m h)
    as [Heq|[(_ & [Hal|Hts] & _)|(body' & _ & _ & _ & _ & _ & _ & Heq)]].
  - exfalso. revert Heq. unfold _process_message. rewrite Htext.
    destruct body as [|c body]; [done|]. rewrite Hmatch. cbn [negb].
    destruct (decide _) as [Hin|_]; [done|].
    destruct (can_send_message _ _ _) as [rl allowed]. cbn [snd] in Hallowed.
    subst allowed. cbn [negb]. rewrite Hsoon.
    rewrite forward_message_limiter, forward_message_unfold, Hent, Htext, Hsend.
    discriminate.
  - cbv zeta in Hal. congruence.
  - congruence.
  - rewrite Heq, forward_message_unfold, Hent, Htext, Hsend. reflexivity.
Qed.

End Capacity.

(** ** telegram_client.py: a key that is forgotten as soon as it is remembered *)

Lemma last_key_first_permutation (s : gset ForwardKey) :
  last_key_first s ≡ₚ elements s.
Proof.
  unfold last_key_first. destruct (decide (last_key ∈ s)) as [Hin|]; [|done].
  rewrite (union_difference_singleton_L last_key s Hin) at 2.
  symmetry. apply elements_union_singleton.
  rewrite elem_of_difference, elem_of_singleton. tauto.
Qed.

Lemma crowded_env_admissible (t : Z) : admissible (crowded_env t).
Proof. intros s. apply last_key_first_permutation. Qed.

Lemma zrange_NoDup (lo : Z) (n : nat) : NoDup (zrange lo n).
Proof.
  unfold zrange. apply NoDup_fmap_2; [|apply NoDup_seq].
  intros i j Hij. lia.
Qed.

Lemma zrange_bound (lo : Z) (n : nat) (z : Z) :
  z ∈ zrange lo n -> lo <= z < lo + Z.of_nat n.
Proof.
  unfold zrange. intros (i & -> & Hi%list_elem_of_In%in_seq)%list_elem_of_fmap. lia.
Qed.

Lemma first_keys_len (n : nat) : len (elements (first_keys n)) = Z.of_nat n.
Proof.
  unfold first_keys. rewrite len_elements_list_to_set.
  - unfold len, zrange. by rewrite !length_fmap, length_seq.
  - apply NoDup_fmap_2; [|apply zrange_NoDup].
    intros i j Hij. by injection Hij.
Qed.

Lemma last_key_not_first : last_key ∉ first_keys (Z.to_nat 10000).
Proof.
  unfold first_keys, last_key.
  intros (i & Heq & Hi%zrange_bound)%elem_of_list_to_set%list_elem_of_fmap.
  injection Heq as <-. lia.
Qed.

(** In general: a call that adds a key to a set of 10000 keys keeps
    the key only if the enumeration of the set lists it among its
    last 5000 entries. *)
Lemma compaction_drops_early_key {U : Unicode} (self self' : TeleScoutClient)
    (E : Env) (m : Message) (h : bool) (events : list Event) (i : nat) :
  admissible E ->
  _max_tracked_messages self = 10000 ->
  len (elements (_forwarded_messages self)) = 10000 ->
  _process_message self E m h = (self', true, events) ->
  listing E ({[dedup_id_of m]} ∪ _forwarded_messages self) !! i = Some (dedup_id_of m) ->
  (i <= Z.to_nat 5000)%nat ->
  dedup_id_of m ∉ _forwarded_messages self'.
Proof.
  intros Hadm Hmax Hlen Hproc Hi Hle.
  destruct (process_message_true self self' E m h events Hproc)
    as (Hnin & _ & _ & -> & _).
  cbn [_forwarded_messages record_forward]. rewrite Hmax.
  pose proof (len_elements_insert _ _ Hnin) as Hgrown.
  rewrite limit_tracked_compacts by lia.
  set (l := listing E ({[dedup_id_of m]} ∪ _forwarded_messages self)) in *.
  destruct (admissible_NoDup E ({[dedup_id_of m]} ∪ _forwarded_messages self) Hadm)
    as [Hnd Hsize]. fold l in Hnd, Hsize.
  assert (Hl : length l = S (Z.to_nat 10000)).
  { rewrite Hsize. unfold len in Hgrown, Hlen.
    change (length (elements ({[dedup_id_of m]} ∪ _forwarded_messages self)))
      with (size ({[dedup_id_of m]} ∪ _forwarded_messages self)) in Hgrown. lia. }
  rewrite Hl.
  intros (j & Hj)%elem_of_list_to_set%list_elem_of_lookup.
  rewrite lookup_drop in Hj.
  pose proof (NoDup_lookup l _ _ _ Hnd Hi Hj). lia.
Qed.

(** Whatever 10000 keys the set holds: when the enumeration of the
    set begins with the key just added, the compaction that follows
    the insertion removes that key, and the same message is forwarded
    a second time when it is delivered again. *)
Lemma compaction_forgets (forwarded : gset ForwardKey) :
  len (elements forwarded) = 10000 ->
  last_key ∉ forwarded ->
  let self :=
    with_forwarded (U := ascii_unicode)
      (TeleScoutClient_init (U := ascii_unicode) example_config) forwarded in
  exists self',
    (_process_message (U := ascii_unicode) self (crowded_env 100) last_message false).1
    = (self', true)
    /\ (dedup_id_of last_message ∉ _forwarded_messages self')
    /\ len (elements (_forwarded_messages self')) = 5000
    /\ (_process_message (U := ascii_unicode) self' (crowded_env 200)
          last_message false).1.2 = true.
Proof.
  intros Hlen Hnin self.
  assert (Hbody : py "We deploy at noon." <> []).
  { intros H. vm_compute in H. discriminate H. }
  eexists. split.
  { apply (process_message_forwarded (U := ascii_unicode) self (crowded_env 100)
             last_message false (py "We deploy at noon.") news);
      try done; by vm_compute. }
  set (self' := record_forward _ _ _ _ _).
  assert (Hfw : _forwarded_messages self'
                = limit_tracked (crowded_env 100) 10000 ({[last_key]} ∪ forwarded))
    by reflexivity.
  assert (Hgrown : len (elements ({[last_key]} ∪ forwarded)) > 10000).
  { rewrite len_elements_insert by done. lia. }
  assert (Hdropped : last_key ∉ _forwarded_messages self').
  { rewrite Hfw, limit_tracked_compacts by done.
    cbn [listing crowded_env]. unfold last_key_first.
    rewrite decide_True by (apply elem_of_union_l; by apply elem_of_singleton).
    assert (Hrest : ({[last_key]} ∪ forwarded) ∖ {[last_key]} = forwarded).
    { apply set_eq. intros key.
      rewrite elem_of_difference, elem_of_union, elem_of_singleton.
      split; [tauto|]. intros Hin. split; [by right|]. by intros ->. }
    rewrite Hrest. cbn [length].
    assert (Hl : length (elements forwarded) = Z.to_nat 10000)
      by (unfold len in Hlen; lia).
    rewrite Hl.
    replace (S (Z.to_nat 10000) - Z.to_nat 5000)%nat with (S (Z.to_nat 5000)) by lia.
    cbn [drop]. intros Hin%elem_of_list_to_set%subseteq_drop%elem_of_elements.
    done. }
  split; [exact Hdropped|]. split.
  { rewrite Hfw. apply limit_tracked_size; [apply crowded_env_admissible|done]. }
  assert (H2 : (_process_message (U := ascii_unicode) self' (crowded_env 200)
                  last_message false).1
               = (record_forward self' (limiter_after_check self' (crowded_env 200)
                                          last_message)
                    (crowded_env 200) (channel_id_of (peer_id last_message))
                    (dedup_id_of last_message), true)).
  { apply (process_message_forwarded (U := ascii_unicode) self' (crowded_env 200)
             last_message false (py "We deploy at noon.") news);
      done. }
  by rewrite H2.
Qed.

(** C4. The key inserted by a call can be dropped by the compaction
    of that very call. The client has forwarded the messages 1 to
    10000 of channel 1; message 10001 of that channel is forwarded
    and its key added, which makes 10001 keys; the enumeration of the
    set (whose order the language leaves open) lists the new key
    first; the last 5000 keys listed are kept, so that the new key is
    no longer in the set, and the same message, delivered again, is
    forwarded again. *)
Theorem remembered_key_dropped :
  admissible (crowded_env 100)
  /\ _max_tracked_messages full_client = 10000
  /\ len (elements (_forwarded_messages full_client)) = 10000
  /\ exists self',
       (_process_message (U := ascii_unicode) full_client (crowded_env 100)
          last_message false).1 = (self', true)
       /\ (dedup_id_of last_message ∉ _forwarded_messages self')
       /\ len (elements (_forwarded_messages self')) = 5000
       /\ (_process_message (U := ascii_unicode) self' (crowded_env 200)
             last_message false).1.2 = true.
Proof.
  assert (Hlen : len (elements (first_keys (Z.to_nat 10000))) = 10000).
  { rewrite first_keys_len. lia. }
  split; [apply crowded_env_admissible|]. split; [reflexivity|].
  split; [exact Hlen|].
  exact (compaction_forgets (first_keys (Z.to_nat 10000)) Hlen last_key_not_first).
Qed.

(** * Further properties of the code *)

(** ** keyword_matcher.py: the three queries agree *)

Section MatcherQueries.
Context {U : Unicode}.

Lemma existsb_filter_nil {A} (f : A -> bool) (l : list A) :
  existsb f l = true <-> filter (fun x => f x = true) l <> [].
Proof.
  induction l as [|x l IH]; [done|].
  rewrite filter_cons. simpl. destruct (f x) eqn:Hx.
  - rewrite decide_True by done. split; [done|]. by intros _.
  - rewrite decide_False by congruence. simpl. exact IH.
Qed.

(** X1. [has_match] answers true exactly when [find_matches] returns
    a keyword, for any matcher and any text. *)
Theorem has_match_find_matches (self : KeywordMatcher) (text : pystr) :
  has_match self text = true <-> find_matches self text <> [].
Proof.
  unfold has_match, find_matches. destruct text as [|c text]; [done|].
  rewrite (existsb_filter_nil (fun kp : pystr * Pattern => search kp.2 (c :: text))).
  split; intros H Hnil; apply H.
  - by apply fmap_nil_inv in Hnil.
  - by rewrite Hnil.
Qed.

(** X2. [get_match_summary] returns none exactly when [has_match]
    answers false: a text that matches always has a summary. *)
Theorem match_summary_none (self : KeywordMatcher) (text : pystr) :
  get_match_summary self text = None <-> has_match self text = false.
Proof.
  rewrite <- not_true_iff_false, has_match_find_matches.
  unfold get_match_summary.
  destruct (find_matches self text) as [|x [|y rest]]; split; try done.
  - intros _ H. by apply H.
  - intros H. exfalso. by apply H.
  - intros H. exfalso. by apply H.
Qed.

End MatcherQueries.

(** ** keyword_matcher.py: whole words only *)

Section WholeWords.
Context {U : Unicode}.

Lemma boundary_all_words (text : pystr) (i : nat) :
  Forall (fun c => is_word c = true) text ->
  boundary text i = true -> i = 0%nat \/ i = length text.
Proof.
  intros Hw Hb. destruct i as [|j]; [by left|]. right.
  unfold boundary in Hb. cbn [char_before] in Hb.
  unfold pystr, codepoint in *.
  destruct (text !! j) as [c|] eqn:Hj.
  - destruct (text !! S j) as [c'|] eqn:HSj.
    + rewrite Forall_forall in Hw.
      assert (Hc : is_word c = true)
        by (apply Hw; by eapply list_elem_of_lookup_2).
      assert (Hc' : is_word c' = true)
        by (apply Hw; by eapply list_elem_of_lookup_2).
      cbn [word_char] in Hb. rewrite Hc, Hc' in Hb. discriminate Hb.
    + apply lookup_lt_Some in Hj. apply lookup_ge_None in HSj. lia.
  - apply lookup_ge_None in Hj.
    rewrite (proj2 (lookup_ge_None text (S j))) in Hb by lia.
    discriminate Hb.
Qed.

Lemma literal_at_length (lit text : pystr) :
  literal_at lit text = true -> (length lit <= length text)%nat.
Proof.
  revert text. induction lit as [|p lit IH]; intros text H; [simpl; lia|].
  destruct text as [|c text]; [discriminate H|].
  simpl in H. apply andb_true_iff in H as [_ H]. apply IH in H. simpl. lia.
Qed.

(** X3. A keyword is never found inside a word: in a text made of
    word characters only (one word), a keyword that is not empty is
    found only if it covers the whole text. *)
Theorem whole_word_only (kw text : pystr) :
  Forall (fun c => is_word c = true) text ->
  search (compile kw) text = true ->
  kw = [] \/ (length kw = length text /\ literal_at kw text = true).
Proof.
  intros Hw Hs. unfold search in Hs.
  apply existsb_exists in Hs as (i & _ & Hm).
  unfold match_at in Hm. cbn [literal] in Hm.
  apply andb_true_iff in Hm as [Hm Hend].
  apply andb_true_iff in Hm as [Hstart Hlit].
  destruct kw as [|p kw]; [by left|]. right.
  pose proof (literal_at_length _ _ Hlit) as Hlen.
  rewrite length_drop in Hlen.
  destruct (boundary_all_words text i Hw Hstart) as [-> | ->].
  - destruct (boundary_all_words text _ Hw Hend) as [H0|Hl].
    + simpl in H0. lia.
    + rewrite drop_0 in Hlit. split; [lia|done].
  - simpl in Hlen. lia.
Qed.

Lemma literal_at_app (kw w post : pystr) :
  Forall2 (fun p c => ci_match p c = true) kw w ->
  literal_at kw (w ++ post) = true.
Proof.
  induction 1 as [|p c kw w Hpc _ IH]; [done|].
  simpl. by rewrite Hpc, IH.
Qed.

Lemma char_before_app (pre l : pystr) :
  char_before (pre ++ l) (length pre) = last pre.
Proof.
  destruct pre as [|x pre _] using rev_ind; [done|].
  rewrite length_app, Nat.add_1_r. cbn [char_before].
  unfold pystr, codepoint in *.
  rewrite last_snoc, <- app_assoc.
  change ([x] ++ l) with (x :: l).
  by rewrite (list_lookup_middle pre l x (length pre) eq_refl).
Qed.

Lemma lookup_app_head (pre l : pystr) :
  (pre ++ l) !! length pre = head l.
Proof.
  unfold pystr, codepoint in *.
  rewrite lookup_app_r by lia. rewrite Nat.sub_diag. by destruct l.
Qed.

(** X4. A keyword that stands as a word of its own is found: when
    the text is [pre ++ w ++ post], [w] matches the keyword character
    by character, begins and ends with a word character, and is
    neither preceded nor followed by a word character. *)
Theorem keyword_between_delimiters (kw pre w post : pystr) :
  Forall2 (fun p c => ci_match p c = true) kw w ->
  word_char (head w) = true -> word_char (last w) = true ->
  word_char (last pre) = false -> word_char (head post) = false ->
  search (compile kw) (pre ++ w ++ post) = true.
Proof.
  intros Hlit Hw0 Hw1 Hpre Hpost.
  assert (Hlen : length kw = length w) by by eapply Forall2_length.
  assert (Hne : w <> []) by (intros ->; discriminate Hw0).
  unfold search. apply existsb_exists. exists (length pre). split.
  { apply in_seq. rewrite length_app. lia. }
  unfold match_at. cbn [literal].
  apply andb_true_iff. split; [apply andb_true_iff; split|].
  - unfold boundary. rewrite char_before_app, lookup_app_head.
    rewrite Hpre. destruct w as [|c w]; [done|]. simpl in *. by rewrite Hw0.
  - rewrite drop_app_length. by apply literal_at_app.
  - rewrite Hlen, <- length_app, app_assoc.
    unfold boundary. rewrite char_before_app, lookup_app_head.
    rewrite Hpost.
    assert (Hlast : last (pre ++ w) = last w).
    { destruct w as [|x w _] using rev_ind; [done|].
      by rewrite app_assoc, !last_snoc. }
    unfold pystr, codepoint in *. rewrite Hlast, Hw1. done.
Qed.

End WholeWords.

Lemma keyword_between_delimiters_witness :
  Forall2 (fun p c => ci_match (Unicode := ascii_unicode) p c = true) (py "cat") (py "CAT")
  /\ search (U := ascii_unicode) (compile (py "cat")) (py "a " ++ py "CAT" ++ py "!") = true.
Proof.
  assert (H : Forall2 (fun p c => ci_match (Unicode := ascii_unicode) p c = true)
                (py "cat") (py "CAT")) by (repeat constructor).
  split; [exact H|].
  exact (keyword_between_delimiters (U := ascii_unicode) (py "cat") (py "a ")
           (py "CAT") (py "!") H eq_refl eq_refl eq_refl eq_refl).
Defined.

Lemma whole_word_only_witness :
  Forall (fun c => is_word (Unicode := ascii_unicode) c = true) (py "robot")
  /\ search (U := ascii_unicode) (compile (py "bot")) (py "robot") = false.
Proof.
  assert (H : Forall (fun c => is_word (Unicode := ascii_unicode) c = true) (py "robot"))
    by (repeat constructor).
  split; [exact H|].
  destruct (search (U := ascii_unicode) (compile (py "bot")) (py "robot")) eqn:Hs;
    [|reflexivity].
  destruct (whole_word_only (U := ascii_unicode) (py "bot") (py "robot") H Hs)
    as [Hnil|[Hlen _]]; [discriminate Hnil|discriminate Hlen].
Defined.

(** ** rate_limiter.py: cleaning, status and recovery *)

(** Cleaning again at a later time gives what cleaning once at the
    later time gives. *)
Lemma cleanup_cleanup (q : list Z) (t t' : Z) :
  t <= t' ->
  _cleanup_old_messages (_cleanup_old_messages q t) t' = _cleanup_old_messages q t'.
Proof.
  intros Ht. induction q as [|x q IH]; [done|].
  simpl. destruct (Z.ltb_spec x (t - 3600)) as [Hx|Hx].
  - rewrite IH. destruct (Z.ltb_spec x (t' - 3600)); [done|lia].
  - done.
Qed.

Lemma cleanup_all_old (q : list Z) (t : Z) :
  Forall (fun x => x < t - 3600) q -> _cleanup_old_messages q t = [].
Proof.
  induction 1 as [|x q Hx _ IH]; [done|].
  simpl. destruct (Z.ltb_spec x (t - 3600)); [done|lia].
Qed.

Lemma cleanup_none_old (q : list Z) (t : Z) :
  Forall (fun x => t - 3600 <= x) q -> _cleanup_old_messages q t = q.
Proof.
  destruct 1 as [|x q Hx _]; [done|].
  simpl. destruct (Z.ltb_spec x (t - 3600)); [lia|done].
Qed.

Lemma get_status_channel (rl : RateLimiter) (t : Z) (c : Z) :
  channel_queue (get_status rl t).1 c = _cleanup_old_messages (channel_queue rl c) t.
Proof.
  unfold get_status, channel_queue. cbn [fst channel_messages].
  rewrite lookup_fmap. by destruct (channel_messages rl !! c).
Qed.

(** X5. Asking for the status does not change what the limiter
    decides: [can_send_message], asked at the time of the status or
    later, answers after [get_status] what it would have answered
    without it. *)
Theorem get_status_transparent (rl : RateLimiter) (t t' : Z) (cid : option Z) :
  t <= t' ->
  (can_send_message (get_status rl t).1 t' cid).2 = (can_send_message rl t' cid).2.
Proof.
  intros Ht.
  destruct (can_send_spec_holds (get_status rl t).1 t' cid) as (-> & _).
  destruct (can_send_spec_holds rl t' cid) as (-> & _).
  assert (Hg : global_messages (get_status rl t).1
               = _cleanup_old_messages (global_messages rl) t) by reflexivity.
  assert (Hm : max_per_hour (get_status rl t).1 = max_per_hour rl) by reflexivity.
  assert (Hc : max_per_channel_per_hour (get_status rl t).1
               = max_per_channel_per_hour rl) by reflexivity.
  rewrite Hg, Hm, Hc, cleanup_cleanup by done. f_equal.
  destruct cid as [c|]; [|done].
  rewrite get_status_channel, cleanup_cleanup by done. done.
Qed.

(** X6. The remaining budget of the status is never negative, it is
    the limit less the count when that is positive, and it is
    positive exactly when a send without a source id is allowed at
    that time. *)
Theorem get_status_remaining (rl : RateLimiter) (t : Z) :
  let status := (get_status rl t).2 in
  0 <= global_remaining status
  /\ global_messages_last_hour status
     = len (_cleanup_old_messages (global_messages rl) t)
  /\ (global_messages_last_hour status < global_limit status ->
      global_remaining status
      = global_limit status - global_messages_last_hour status)
  /\ (0 < global_remaining status <-> (can_send_message rl t None).2 = true).
Proof.
  cbv zeta. cbn [get_status snd global_remaining global_messages_last_hour global_limit].
  split; [lia|]. split; [done|]. split; [lia|].
  rewrite can_send_message_no_channel. cbn [snd].
  rewrite negb_true_iff, Z.geb_leb, Z.leb_gt. lia.
Qed.

(** X7. The limiter recovers: when every recorded timestamp is more
    than an hour old and the limits are positive, the send is
    allowed. *)
Theorem limiter_recovers (rl : RateLimiter) (t : Z) (cid : option Z) :
  0 < max_per_hour rl -> 0 < max_per_channel_per_hour rl ->
  Forall (fun x => x < t - 3600) (global_messages rl) ->
  (forall c, cid = Some c -> Forall (fun x => x < t - 3600) (channel_queue rl c)) ->
  (can_send_message rl t cid).2 = true
  /\ global_messages (can_send_message rl t cid).1 = [].
Proof.
  intros Hmax Hmaxc Hold Holdc.
  destruct (can_send_spec_holds rl t cid) as (-> & -> & _).
  rewrite cleanup_all_old by done. split; [|done].
  apply andb_true_iff. split.
  - rewrite negb_true_iff, Z.geb_leb, Z.leb_gt. unfold len. simpl. lia.
  - destruct cid as [c|]; [|done].
    rewrite cleanup_all_old by by apply Holdc.
    rewrite negb_true_iff, Z.geb_leb, Z.leb_gt. unfold len. simpl. lia.
Qed.

(** X8. The limiter holds: once the global window holds [max_per_hour]
    timestamps none of which is an hour old, every send is refused;
    and a limit that is not positive refuses every send. *)
Theorem limiter_blocks (rl : RateLimiter) (t : Z) (cid : option Z) :
  (max_per_hour rl <= len (global_messages rl)
   /\ Forall (fun x => t - 3600 <= x) (global_messages rl))
  \/ max_per_hour rl <= 0 ->
  (can_send_message rl t cid).2 = false.
Proof.
  intros H.
  destruct (can_send_spec_holds rl t cid) as (-> & _).
  apply andb_false_iff. left.
  rewrite negb_false_iff, Z.geb_leb, Z.leb_le.
  destruct H as [[Hfull Hfresh]|Hzero].
  - by rewrite cleanup_none_old.
  - pose proof (len_nonneg (_cleanup_old_messages (global_messages rl) t)). lia.
Qed.

Lemma get_status_transparent_witness :
  let rl := record_message (RateLimiter_init 1 1) 100 (Some 42) in
  100 <= 200
  /\ (can_send_message (get_status rl 100).1 200 (Some 42)).2
     = (can_send_message rl 200 (Some 42)).2
  /\ (can_send_message rl 200 (Some 42)).2 = false.
Proof.
  intros rl. assert (H : 100 <= 200) by lia.
  split; [exact H|]. split; [|reflexivity].
  exact (get_status_transparent rl 100 200 (Some 42) H).
Defined.

Lemma limiter_recovers_witness :
  let rl := record_message (RateLimiter_init 1 1) 100 (Some 42) in
  0 < max_per_hour rl /\ 0 < max_per_channel_per_hour rl
  /\ (can_send_message rl 3701 (Some 42)).2 = true
  /\ global_messages (can_send_message rl 3701 (Some 42)).1 = [].
Proof.
  intros rl.
  assert (H1 : 0 < max_per_hour rl) by (simpl; lia).
  assert (H2 : 0 < max_per_channel_per_hour rl) by (simpl; lia).
  split; [exact H1|]. split; [exact H2|].
  apply (limiter_recovers rl 3701 (Some 42) H1 H2).
  - repeat constructor.
  - intros c Hc. injection Hc as <-. repeat constructor.
Defined.

Lemma limiter_blocks_witness :
  let rl := record_message (RateLimiter_init 1 1) 100 None in
  (can_send_message rl 3700 (Some 7)).2 = false.
Proof.
  intros rl. apply (limiter_blocks rl 3700 (Some 7)).
  left. split; [simpl; unfold len; simpl; lia|repeat constructor; lia].
Defined.

(** ** utils.py: truncate_text *)

(** X9. When the suffix fits in [max_length], the result of
    [truncate_text] is never longer than [max_length]: a text that
    fits is returned as it is, a longer one is cut so that the result
    has exactly [max_length] characters and ends with the suffix. *)
Theorem truncate_text_bound (text : pystr) (max_length : Z) (suffix : pystr) :
  len suffix <= max_length ->
  len (truncate_text text max_length suffix) <= max_length
  /\ (len text <= max_length -> truncate_text text max_length suffix = text)
  /\ (max_length < len text ->
      truncate_text text max_length suffix
      = take (Z.to_nat (max_length - len suffix)) text ++ suffix
      /\ len (truncate_text text max_length suffix) = max_length
      /\ endswith (truncate_text text max_length suffix) suffix = true).
Proof.
  intros Hs. unfold truncate_text.
  destruct (Z.leb_spec (len text) max_length) as [Hfit|Hlong].
  - split; [done|]. split; [done|]. lia.
  - assert (Hcut : slice_to (max_length - len suffix) text
                   = take (Z.to_nat (max_length - len suffix)) text).
    { unfold slice_to. destruct (Z.ltb_spec (max_length - len suffix) 0); [lia|done]. }
    rewrite Hcut.
    assert (Hlen : len (take (Z.to_nat (max_length - len suffix)) text ++ suffix)
                   = max_length).
    { rewrite len_app. unfold len in *. rewrite length_take. lia. }
    split; [lia|]. split; [lia|]. intros _.
    split; [done|]. split; [done|]. apply endswith_app.
Qed.

Lemma truncate_text_bound_witness :
  len (py "...") <= 8
  /\ truncate_text (py "We deploy at noon.") 8 (py "...") = py "We de...".
Proof.
  assert (H : len (py "...") <= 8) by (vm_compute; congruence).
  split; [exact H|].
  destruct (truncate_text_bound (py "We deploy at noon.") 8 (py "...") H)
    as (_ & _ & Hlong).
  destruct Hlong as (-> & _); [vm_compute; reflexivity|reflexivity].
Defined.

(** When the suffix does not fit, the slice counts from the end and
    the result can be longer than [max_length]. *)
Example truncate_text_short_limit :
  truncate_text (py "abcdefgh") 2 (py "...") = py "abcdefg...".
Proof. reflexivity. Qed.

(** ** security.py: sanitize_user_input *)

Lemma list_filter_sublist {A} (f : A -> bool) (l : list A) :
  List.filter f l `sublist_of` l.
Proof.
  induction l as [|x l IH]; [done|].
  simpl. destruct (f x); [by apply sublist_skip | by apply sublist_cons].
Qed.

Lemma list_filter_Forall {A} (f : A -> bool) (l : list A) :
  Forall (fun x => f x = true) (List.filter f l).
Proof.
  apply Forall_forall. intros x Hx%list_elem_of_In%filter_In. tauto.
Qed.

Lemma list_filter_all {A} (f : A -> bool) (l : list A) :
  Forall (fun x => f x = true) l -> List.filter f l = l.
Proof.
  induction 1 as [|x l Hx _ IH]; [done|]. simpl. by rewrite Hx, IH.
Qed.

Lemma sanitize_take (text : pystr) (max_length : Z) :
  0 <= max_length ->
  sanitize_user_input text max_length
  = take (Z.to_nat max_length) (List.filter printable text).
Proof.
  intros Hm. unfold sanitize_user_input. cbv zeta.
  rewrite Z.gtb_ltb.
  destruct (Z.ltb_spec max_length (len (List.filter printable text))) as [Hl|Hl].
  - unfold slice_to. destruct (Z.ltb_spec max_length 0); [lia|done].
  - rewrite take_ge; [done|]. unfold len in Hl. lia.
Qed.

(** X10. For a limit that is not negative, [sanitize_user_input]
    returns at most [max_length] characters, each of which has a code
    point of 32 or more or is a newline or a tab (the test of the
    code: the delete character and the controls U+0080 to U+009F
    have code points above 32 and stay); it only removes characters
    (the result is a subsequence of the text); a text all of whose
    characters pass that test and that is short enough is returned
    as it is; and sanitizing twice changes nothing more. *)
Theorem sanitize_user_input_spec (text : pystr) (max_length : Z) :
  0 <= max_length ->
  let clean := sanitize_user_input text max_length in
  len clean <= max_length
  /\ Forall (fun c => (32 <= c)%N \/ c = 10%N \/ c = 9%N) clean
  /\ clean `sublist_of` text
  /\ (Forall (fun c => printable c = true) text -> len text <= max_length ->
      clean = text)
  /\ sanitize_user_input clean max_length = clean.
Proof.
  intros Hm clean.
  assert (Hclean : clean = take (Z.to_nat max_length) (List.filter printable text))
    by by apply sanitize_take.
  assert (Hlen : len clean <= max_length).
  { rewrite Hclean. unfold len. rewrite length_take. lia. }
  assert (Hprint : Forall (fun c => printable c = true) clean).
  { rewrite Hclean. apply Forall_take, list_filter_Forall. }
  split; [done|]. split; [|split; [|split]].
  - eapply Forall_impl; [exact Hprint|]. simpl. intros c Hc.
    unfold printable in Hc.
    apply orb_true_iff in Hc as [Hc|Hc]; [apply orb_true_iff in Hc as [Hc|Hc]|].
    + left. by apply N.leb_le.
    + right. left. by apply N.eqb_eq.
    + right. right. by apply N.eqb_eq.
  - rewrite Hclean. etrans; [apply sublist_take|apply list_filter_sublist].
  - intros Hall Hfit. rewrite Hclean, list_filter_all by done.
    apply take_ge. unfold len in Hfit. lia.
  - rewrite sanitize_take, list_filter_all by done.
    apply take_ge. unfold len in Hlen. lia.
Qed.

Lemma sanitize_user_input_spec_witness :
  0 <= 5
  /\ len (sanitize_user_input ([7%N] ++ py "deploy" ++ [27%N] ++ py " now") 5) <= 5
  /\ sanitize_user_input ([7%N] ++ py "deploy" ++ [27%N] ++ py " now") 5 = py "deplo".
Proof.
  assert (H : 0 <= 5) by lia. split; [exact H|]. split; [|reflexivity].
  exact (proj1 (sanitize_user_input_spec
                  ([7%N] ++ py "deploy" ++ [27%N] ++ py " now") 5 H)).
Defined.

(** ** telegram_client.py: what a call never does *)

Section CallFacts.
Context {U : Unicode}.

Lemma process_message_config (self self' : TeleScoutClient) (E : Env)
    (m : Message) (h : bool) (r : bool) (events : list Event) :
  _process_message self E m h = (self', r, events) ->
  config self' = config self
  /\ keyword_matcher self' = keyword_matcher self
  /\ _max_tracked_messages self' = _max_tracked_messages self
  /\ max_per_hour (rate_limiter self') = max_per_hour (rate_limiter self)
  /\ max_per_channel_per_hour (rate_limiter self')
     = max_per_channel_per_hour (rate_limiter self).
Proof.
  intros Hproc. destruct r.
  - destruct (process_message_true self self' E m h events Hproc)
      as (_ & _ & _ & -> & _).
    repeat (split; [done|]).
    cbn [rate_limiter record_forward record_message
           max_per_hour max_per_channel_per_hour].
    apply can_send_message_limits.
  - destruct (process_message_false self self' E m h events Hproc) as [->| ->];
      [done|].
    repeat (split; [done|]). apply can_send_message_limits.
Qed.


Lemma sends_app (l k : list Event) : sends (l ++ k) = sends l ++ sends k.
Proof. apply omap_app. Qed.

Lemma sleeps_app (l k : list Event) : sleeps (l ++ k) = sleeps l ++ sleeps k.
Proof. apply omap_app. Qed.

(** X12. A call sends at most one message and sleeps at most once:
    there is no retry; it sleeps only when it returns false, and it
    calls the callback only when it returns true. *)
Theorem one_send_per_call (self : TeleScoutClient) (E : Env)
    (m : Message) (h : bool) :
  let '(_, result, events) := _process_message self E m h in
  (length (sends events) <= 1)%nat
  /\ (length (sleeps events) <= 1)%nat
  /\ (sleeps events <> [] -> result = false)
  /\ (EvCallback ∈ events -> result = true).
Proof.
  destruct (process_message_cases self E m h)
    as [Heq|[(_ & _ & Heq)|(body & Htext & _ & _ & _ & _ & _ & Heq)]];
    rewrite Heq.
  - simpl. repeat split; try lia; try done. by intros ?%elem_of_nil.
  - simpl. repeat split; try lia; try done. by intros ?%elem_of_nil.
  - rewrite forward_message_unfold, Htext.
    destruct (get_entity_reply E) as [channel|[seconds|]];
      [destruct (send_reply E) as [[]|[seconds|]];
         [destruct (on_message_forwarded self)| |] | |];
      simpl; repeat split; try lia; try done;
      rewrite ?elem_of_cons, elem_of_nil; intros Hin;
      repeat (destruct Hin as [Hin|Hin]; try discriminate Hin); done.
Qed.

Lemma forward_header_summary (name time summary : pystr) (h : bool) :
  exists before after,
    forward_header name (Some summary) time h = before ++ summary ++ after.
Proof.
  unfold forward_header. cbn [default].
  eexists ([127919%N] ++ py " **TeleScout Match**" ++ nl
           ++ [128250%N] ++ py " **Channel:** " ++ name ++ nl
           ++ [9200%N] ++ py " **Time:** " ++ time ++ nl
           ++ [128269%N] ++ py " **"), _.
  rewrite <- !app_assoc. reflexivity.
Qed.

(** X13. Only a message that matches is sent on, and what is sent
    names the match: every text handed to [send_message] comes from a
    message whose text is not empty and matches a keyword, and it
    contains the summary of the match. *)
Theorem sent_text_names_match (self : TeleScoutClient) (E : Env)
    (m : Message) (h : bool) (sent : pystr) :
  EvSend sent ∈ events_of self E m h ->
  exists body summary before after,
    text m = Some body /\ body <> []
    /\ has_match (keyword_matcher self) body = true
    /\ get_match_summary (keyword_matcher self) body = Some summary
    /\ sent = before ++ summary ++ after.
Proof.
  intros Hin.
  destruct (process_send_text self E m h sent Hin)
    as (body & channel & Htext & Hent & ->).
  unfold events_of in Hin.
  destruct (process_message_cases self E m h)
    as [Heq|[(_ & _ & Heq)|(body' & Htext' & Hne & Hmatch & _ & _ & _ & Heq)]];
    [rewrite Heq in Hin; by apply elem_of_nil in Hin ..|].
  rewrite Htext in Htext'. injection Htext' as <-.
  destruct (get_match_summary (keyword_matcher self) body) as [summary|] eqn:Hsum.
  2:{ apply match_summary_none in Hsum. congruence. }
  destruct (forward_header_summary
              (default (py "Unknown Channel") (title channel))
              (format_datetime (date m)) summary h) as (before & after & Hhead).
  exists body, summary, before,
    (after ++ forward_text (max_message_length (config self))
                (header_of self channel m h body) body).
  repeat (split; [done|]).
  unfold full_message_of. fold (header_of self channel m h body).
  unfold header_of at 1. rewrite Hsum, Hhead.
  by rewrite <- !app_assoc.
Qed.

End CallFacts.


Lemma sent_text_names_match_witness :
  let self := TeleScoutClient_init (U := ascii_unicode) example_config in
  let sent := full_message_of (U := ascii_unicode) self news short_message false
                (py "We deploy at noon.") in
  EvSend sent ∈ events_of (U := ascii_unicode) self (calm_env 100) short_message false
  /\ get_match_summary (U := ascii_unicode) (keyword_matcher self)
       (py "We deploy at noon.") = Some (py "Keyword matched: 'deploy'")
  /\ exists body summary before after,
       text short_message = Some body /\ body <> []
       /\ has_match (U := ascii_unicode) (keyword_matcher self) body = true
       /\ get_match_summary (U := ascii_unicode) (keyword_matcher self) body
          = Some summary
       /\ sent = before ++ summary ++ after.
Proof.
  intros self sent.
  assert (H : EvSend sent ∈
                events_of (U := ascii_unicode) self (calm_env 100) short_message false).
  { apply list_elem_of_In. vm_compute. tauto. }
  split; [exact H|]. split; [reflexivity|].
  exact (sent_text_names_match (U := ascii_unicode) self (calm_env 100)
           short_message false sent H).
Defined.

(** ** telegram_client.py: a session *)

Section SessionFacts.
Context {U : Unicode}.

Lemma process_stream_outcome (self : TeleScoutClient) (c : Call) (calls : list Call)
    (o : Outcome) (outs : list Outcome) :
  (process_stream self (c :: calls)).2 = o :: outs ->
  exists self',
    _process_message self (call_env c) (call_message c) (call_historical c)
    = (self', out_result o, out_events o)
    /\ out_call o = c
    /\ (process_stream self' calls).2 = outs.
Proof.
  rewrite process_stream_cons. cbn zeta. cbn [fst snd].
  destruct (_process_message self (call_env c) (call_message c) (call_historical c))
    as [[self' r] evs].
  cbn [fst snd]. intros Heq. injection Heq as <- <-. by exists self'.
Qed.

(** Until the next success from the source [cid], the time of its
    last forward stays, and the success respects the delay. *)
Lemma spacing_after_forward (mid : list Outcome) :
  forall (calls : list Call) (self : TeleScoutClient) (o2 : Outcome)
         (post : list Outcome) (cid : option Z) (t : Z),
  (process_stream self calls).2 = mid ++ o2 :: post ->
  _last_forward_time self !! cid = Some t ->
  (forall o, o ∈ mid -> out_result o = true -> out_cid o <> cid) ->
  out_result o2 = true -> out_cid o2 = cid ->
  forward_delay (config self) <= out_now o2 - t.
Proof.
  induction mid as [|a mid IH]; intros calls self o2 post cid t Houts Hlast Hmid Hr Hcid.
  - destruct calls as [|c calls]; [discriminate Houts|].
    destruct (process_stream_outcome _ _ _ _ _ Houts) as (self' & Hproc & Hcall & _).
    rewrite Hr in Hproc.
    destruct (process_message_true _ _ _ _ _ _ Hproc) as (_ & _ & Hsoon & _).
    unfold out_cid in Hcid. rewrite Hcall in Hcid. rewrite Hcid in Hsoon.
    unfold too_soon in Hsoon. rewrite Hlast in Hsoon.
    apply Z.ltb_ge in Hsoon. unfold out_now. by rewrite Hcall.
  - destruct calls as [|c calls]; [discriminate Houts|].
    destruct (process_stream_outcome _ _ _ _ _ Houts) as (self' & Hproc & Hcall & Hrest).
    destruct (process_message_config _ _ _ _ _ _ _ Hproc) as (<- & _).
    apply (IH calls self' o2 post cid t Hrest); [|by intros o Ho; apply Hmid; right|done..].
    destruct (out_result a) eqn:Hra.
    + destruct (process_message_true _ _ _ _ _ _ Hproc) as (_ & _ & _ & -> & _).
      cbn [_last_forward_time record_forward].
      rewrite lookup_insert_ne; [done|].
      specialize (Hmid a (list_elem_of_here _ _) Hra).
      unfold out_cid in Hmid. by rewrite Hcall in Hmid.
    + by destruct (process_message_false _ _ _ _ _ _ Hproc) as [->| ->].
Qed.

(** X14. The spacing gate compares readings of the clock: when two
    calls for the same source id are successful, with no successful
    call for that source id between them, the reading of
    [datetime.now] taken by the second (before its check and its
    send) is at least [forward_delay] seconds after the reading taken
    by the first, whatever is forwarded from other sources, rejected
    or failed in between. The readings are taken before the sends:
    nothing is said of the instants at which the messages are sent
    or recorded (see [spacing_is_of_readings]). *)
Theorem per_source_spacing (calls : list Call) (self : TeleScoutClient)
    (pre mid post : list Outcome) (o1 o2 : Outcome) :
  (process_stream self calls).2 = pre ++ o1 :: mid ++ o2 :: post ->
  out_result o1 = true -> out_result o2 = true ->
  out_cid o2 = out_cid o1 ->
  (forall o, o ∈ mid -> out_result o = true -> out_cid o <> out_cid o1) ->
  forward_delay (config self) <= out_now o2 - out_now o1.
Proof.
  revert calls self.
  induction pre as [|a pre IH]; intros calls self Houts Hr1 Hr2 Hcid Hmid.
  - destruct calls as [|c calls]; [discriminate Houts|].
    destruct (process_stream_outcome _ _ _ _ _ Houts) as (self' & Hproc & Hcall & Hrest).
    destruct (process_message_config _ _ _ _ _ _ _ Hproc) as (<- & _).
    apply (spacing_after_forward mid calls self' o2 post (out_cid o1) (out_now o1));
      try done.
    rewrite Hr1 in Hproc.
    destruct (process_message_true _ _ _ _ _ _ Hproc) as (_ & _ & _ & -> & _).
    cbn [_last_forward_time record_forward].
    unfold out_cid, out_now. rewrite Hcall. apply lookup_insert_eq.
  - destruct calls as [|c calls]; [discriminate Houts|].
    destruct (process_stream_outcome _ _ _ _ _ Houts) as (self' & Hproc & Hcall & Hrest).
    destruct (process_message_config _ _ _ _ _ _ _ Hproc) as (<- & _).
    by apply (IH calls self').
Qed.

(** X15. Over a whole session the set of forwarded keys never holds
    more than 10000 keys, and it remembers only keys that were
    forwarded with success (or that it held at the start). *)
Theorem remembered_keys_were_forwarded (calls : list Call) (self : TeleScoutClient) :
  (forall c, c ∈ calls -> admissible (call_env c)) ->
  _max_tracked_messages self = 10000 ->
  len (elements (_forwarded_messages self)) <= 10000 ->
  len (elements (_forwarded_messages (process_stream self calls).1)) <= 10000
  /\ forall key, key ∈ _forwarded_messages (process_stream self calls).1 ->
       key ∈ _forwarded_messages self
       \/ key ∈ forwarded_keys (process_stream self calls).2.
Proof.
  revert self. induction calls as [|c calls IH]; intros self Hadm Hmax Hsize.
  - simpl. split; [done|]. by left.
  - rewrite process_stream_cons. cbn zeta. cbn [fst snd].
    destruct (_process_message self (call_env c) (call_message c) (call_historical c))
      as [[self' r] evs] eqn:Hproc.
    cbn [fst snd].
    destruct (forwarded_bounded self self' _ _ _ r evs
                (Hadm c (list_elem_of_here _ _)) Hmax Hsize Hproc)
      as (Hmax' & Hsize' & Hsub & _).
    destruct (IH self' (fun c' Hc' => Hadm c' (list_elem_of_further _ _ _ Hc'))
                Hmax' Hsize') as (Hfin & Hkeys).
    split; [done|]. intros key Hkey.
    rewrite forwarded_keys_cons. cbn [out_result].
    destruct (Hkeys key Hkey) as [Hin|Hin].
    + destruct r.
      * apply Hsub in Hin. apply elem_of_union in Hin as [Hin|Hin]; [|by left].
        apply elem_of_singleton in Hin as ->. right. left.
      * destruct (process_message_false _ _ _ _ _ _ Hproc) as [->| ->]; by left.
    + right. destruct r; [by right|done].
Qed.

Lemma closed_limiter_call (self self' : TeleScoutClient) (E : Env)
    (m : Message) (h : bool) (r : bool) (events : list Event) :
  max_per_hour (rate_limiter self) <= 0 ->
  _process_message self E m h = (self', r, events) ->
  r = false /\ events = [] /\ max_per_hour (rate_limiter self') <= 0.
Proof.
  intros Hzero Hproc.
  destruct (process_message_config _ _ _ _ _ _ _ Hproc) as (_ & _ & _ & Hlim & _).
  rewrite Hlim.
  destruct (process_message_cases self E m h)
    as [Heq|[(_ & _ & Heq)|(body & _ & _ & _ & _ & Hal & _ & _)]];
    [rewrite Heq in Hproc; by injection Hproc as _ <- <- ..|].
  exfalso. unfold can_send_message in Hal.
  pose proof (len_nonneg (_cleanup_old_messages
                            (global_messages (rate_limiter self)) (time_check E))).
  destruct (Z.geb_spec
              (len (_cleanup_old_messages (global_messages (rate_limiter self))
                      (time_check E)))
              (max_per_hour (rate_limiter self))); [done|lia].
Qed.

(** X16. With a limit per hour that is not positive the client is
    closed: in a whole session no message is forwarded, and the
    forwarder is not even called. *)
Theorem closed_limiter_forwards_nothing (calls : list Call) (self : TeleScoutClient)
    (o : Outcome) :
  max_per_hour (rate_limiter self) <= 0 ->
  o ∈ (process_stream self calls).2 ->
  out_result o = false /\ out_events o = [].
Proof.
  revert self. induction calls as [|c calls IH]; intros self Hzero Hin.
  - by apply elem_of_nil in Hin.
  - destruct ((process_stream self (c :: calls)).2) as [|o' outs] eqn:Houts;
      [by apply elem_of_nil in Hin|].
    destruct (process_stream_outcome _ _ _ _ _ Houts) as (self' & Hproc & _ & Hrest).
    destruct (closed_limiter_call _ _ _ _ _ _ _ Hzero Hproc) as (Hr & Hev & Hzero').
    apply elem_of_cons in Hin as [->|Hin]; [done|].
    apply (IH self' Hzero'). by rewrite Hrest.
Qed.

End SessionFacts.

Lemma per_source_spacing_witness :
  let self := TeleScoutClient_init (U := ascii_unicode) example_config in
  let outs := (process_stream (U := ascii_unicode) self spaced_calls).2 in
  out_result <$> outs = [true; false; true]
  /\ out_now <$> outs = [100; 102; 105]
  /\ forward_delay (config self) <= 105 - 100.
Proof.
  intros self outs.
  pose (d := {| out_call := {| call_env := calm_env 0; call_message := short_message;
                               call_historical := false |};
                out_result := false; out_events := [] |}).
  pose (o1 := nth 0 outs d). pose (a := nth 1 outs d). pose (o2 := nth 2 outs d).
  assert (Houts : (process_stream (U := ascii_unicode) self spaced_calls).2
                  = [] ++ o1 :: [a] ++ o2 :: []) by reflexivity.
  assert (H1 : out_result o1 = true) by reflexivity.
  assert (H2 : out_result o2 = true) by reflexivity.
  assert (Hc : out_cid o2 = out_cid o1) by reflexivity.
  assert (Hmid : forall o, o ∈ [a] -> out_result o = true -> out_cid o <> out_cid o1).
  { intros o Ho Hro. apply list_elem_of_singleton in Ho as ->. discriminate Hro. }
  split; [reflexivity|]. split; [reflexivity|].
  exact (per_source_spacing (U := ascii_unicode) spaced_calls self [] [a] [] o1 o2
           Houts H1 H2 Hc Hmid).
Defined.

Lemma remembered_keys_were_forwarded_witness :
  let self := TeleScoutClient_init (U := ascii_unicode) example_config in
  (forall c, c ∈ replay -> admissible (call_env c))
  /\ len (elements (_forwarded_messages
                      (process_stream (U := ascii_unicode) self replay).1)) <= 10000
  /\ forall key,
       key ∈ _forwarded_messages (process_stream (U := ascii_unicode) self replay).1 ->
       key ∈ _forwarded_messages self
       \/ key ∈ forwarded_keys (process_stream (U := ascii_unicode) self replay).2.
Proof.
  intros self.
  assert (Hadm : forall c, c ∈ replay -> admissible (call_env c)).
  { intros c Hc. unfold replay in Hc.
    rewrite !elem_of_cons, elem_of_nil in Hc.
    destruct Hc as [->|[->|[]]]; by intros s. }
  split; [exact Hadm|].
  apply (remembered_keys_were_forwarded (U := ascii_unicode) replay self Hadm).
  - reflexivity.
  - by vm_compute.
Defined.

Lemma closed_limiter_forwards_nothing_witness :
  let self := TeleScoutClient_init (U := ascii_unicode) closed_config in
  max_per_hour (rate_limiter self) <= 0
  /\ forall o, o ∈ (process_stream (U := ascii_unicode) self burst).2 ->
       out_result o = false /\ out_events o = [].
Proof.
  intros self.
  assert (H : max_per_hour (rate_limiter self) <= 0) by (simpl; lia).
  split; [exact H|]. intros o.
  exact (closed_limiter_forwards_nothing (U := ascii_unicode) burst self o H).
Defined.

(** ** rate_limiter.py: the channels that are tracked *)

(** X17. The limiter never forgets a channel: neither a check nor a
    record nor a status query removes an entry of [channel_messages],
    the status counts the channels whose queues have become empty
    too, and a check that passes the global limit makes its channel
    tracked even when it is refused. *)
Theorem channels_never_forgotten (rl : RateLimiter) (t : Z) (cid : option Z) :
  dom (channel_messages rl) ⊆ dom (channel_messages (can_send_message rl t cid).1)
  /\ dom (channel_messages rl) ⊆ dom (channel_messages (record_message rl t cid))
  /\ dom (channel_messages (get_status rl t).1) = dom (channel_messages rl)
  /\ channels_tracked (get_status rl t).2 = Z.of_nat (size (channel_messages rl))
  /\ (forall c, (can_send_message rl t None).2 = true ->
        c ∈ dom (channel_messages (can_send_message rl t (Some c)).1)
        /\ c ∈ dom (channel_messages (record_message rl t (Some c)))).
Proof.
  split; [|split; [|split; [|split]]].
  - unfold can_send_message.
    destruct (_ >=? max_per_hour rl); [done|].
    destruct cid as [c|]; [|done].
    destruct (_ >=? max_per_channel_per_hour rl);
      cbn [fst channel_messages]; apply dom_insert_subseteq.
  - unfold record_message. cbn [channel_messages].
    destruct cid as [c|]; [apply dom_insert_subseteq|done].
  - unfold get_status. cbn [fst channel_messages]. apply dom_fmap_L.
  - unfold get_status. cbn [snd channels_tracked]. by rewrite map_size_fmap.
  - intros c. unfold can_send_message.
    destruct (_ >=? max_per_hour rl); [discriminate|]. intros _. split.
    + destruct (_ >=? max_per_channel_per_hour rl);
        cbn [fst channel_messages]; rewrite dom_insert; set_solver.
    + unfold record_message. cbn [channel_messages]. rewrite dom_insert. set_solver.
Qed.

Lemma channels_never_forgotten_witness :
  let rl := RateLimiter_init 3 0 in
  (can_send_message rl 100 None).2 = true
  /\ (can_send_message rl 100 (Some 42)).2 = false
  /\ 42 ∈ dom (channel_messages (can_send_message rl 100 (Some 42)).1)
  /\ channels_tracked (get_status (can_send_message rl 100 (Some 42)).1 100).2 = 1.
Proof.
  intros rl.
  assert (H : (can_send_message rl 100 None).2 = true) by reflexivity.
  split; [exact H|]. split; [reflexivity|]. split; [|reflexivity].
  exact (proj1 (proj2 (proj2 (proj2 (proj2
           (channels_never_forgotten rl 100 (Some 42))))) 42 H)).
Defined.

(** The spacing is one of readings, not of sends: with a delay of five
    seconds, two forwards from one channel are recorded in the same
    second when the first send takes five seconds. *)
Example spacing_is_of_readings :
  let outs :=
    (process_stream (U := ascii_unicode)
       (TeleScoutClient_init (U := ascii_unicode) example_config) slow_send_calls).2 in
  forward_delay example_config = 5
  /\ out_result <$> outs = [true; true]
  /\ out_now <$> outs = [100; 105]
  /\ record_times outs = [105; 105].
Proof. vm_compute. repeat split. Qed.

(** The delete character and a control of the range U+0080 to U+009F
    pass the test of [sanitize_user_input]; the escape character does
    not. *)
Example sanitize_keeps_high_controls :
  sanitize_user_input [127%N; 133%N; 27%N; 159%N] 10 = [127%N; 133%N; 159%N].
Proof. reflexivity. Qed.
